(** * bench_hstream_kafka.py: template rendering and run orchestration

    A shallow embedding of [bench_hstream_kafka.py] and the properties its
    specification states about it.

    Python [str] values are [string]; the [dict] of overrides is the list
    of its items in insertion order (the order [overrides.items()] yields);
    a path is the list of its components, so that [os.path.join(p, name)]
    appends a component; the file system is a finite map from paths to
    nodes; the statements of [main] run in a state-and-exception monad over
    the file system and a chronological trace of the observable actions.

    The first part holds the definitions, the second part the lemmas and
    the theorems. *)

From Stdlib Require Import Ascii ZArith Lia.
From stdpp Require Import gmap strings list.

(** * Part I: the program *)

(** ** Strings *)

Module Str.

(** [drop n s]: the slice [s[n:]]. *)
Fixpoint drop (n : nat) (s : string) : string :=
  match n, s with
  | S n', String _ s' => drop n' s'
  | _, _ => s
  end.

(** [c in s] for a character [c]. *)
Fixpoint has_char (c : ascii) (s : string) : bool :=
  match s with
  | "" => false
  | String d s' => bool_decide (c = d) || has_char c s'
  end.

(** No character of [a] occurs in [b]. *)
Fixpoint no_common_char (a b : string) : bool :=
  match a with
  | "" => true
  | String c a' => negb (has_char c b) && no_common_char a' b
  end.

(** [k in s] for strings: [k] occurs in [s] as a substring.
    [s.startswith(k)] is [String.prefix k s]. *)
Fixpoint contains (s k : string) : bool :=
  String.prefix k s
  || match s with "" => false | String _ s' => contains s' k end.

Definition nonempty (s : string) : bool :=
  match s with "" => false | _ => true end.

(** [s.endswith(k)] *)
Definition endswith (s k : string) : bool :=
  bool_decide (drop (String.length s - String.length k) s = k).

End Str.

(** ** [str.replace]

    [s.replace(old, new)] replaces the occurrences of [old] found by one
    scan of [s] from the left, a match resuming the scan after its last
    character. For the empty [old], [new] is put before every character
    and at the end. *)

Fixpoint replace_from (old new : string) (skip : nat) (s : string) : string :=
  match s with
  | "" => ""
  | String c s' =>
      match skip with
      | S n => replace_from old new n s'
      | O =>
          if String.prefix old s
          then new +:+ replace_from old new (String.length old - 1) s'
          else String c (replace_from old new 0 s')
      end
  end.

Fixpoint replace_empty (new s : string) : string :=
  new +:+ match s with
          | "" => ""
          | String c s' => String c (replace_empty new s')
          end.

Definition str_replace (old new s : string) : string :=
  if Str.nonempty old then replace_from old new 0 s else replace_empty new s.

(** ** The substitution loop of [gen_driver]

<<
    for k, v in overrides.items():
        tmpl_contents = tmpl_contents.replace(k, v)
>> *)

Definition overrides_t := list (string * string).

Definition render_contents (overrides : overrides_t) (tmpl_contents : string)
  : string :=
  foldl (λ contents kv, str_replace kv.1 kv.2 contents) tmpl_contents overrides.

(** ** Single-pass replacement, after the specification

    The specification asks for "a single conceptual pass over all tokens
    simultaneously": "collect all tokens, scan the template once, and
    replace each match using its corresponding value looked up at match
    time [...], never re-scanning inserted text". [simultaneous_replace]
    is that scan; it is the reference the code is compared with, not a
    part of the code. Where two keys match at one position the earlier
    entry is taken; an empty key matches nowhere. *)

Fixpoint first_match (M : overrides_t) (s : string) : option (string * string) :=
  match M with
  | [] => None
  | (k, v) :: M' =>
      if Str.nonempty k && String.prefix k s then Some (k, v)
      else first_match M' s
  end.

Fixpoint simultaneous_from (M : overrides_t) (skip : nat) (s : string) : string :=
  match s with
  | "" => ""
  | String c s' =>
      match skip with
      | S n => simultaneous_from M n s'
      | O =>
          match first_match M s with
          | Some (k, v) => v +:+ simultaneous_from M (String.length k - 1) s'
          | None => String c (simultaneous_from M 0 s')
          end
      end
  end.

Definition simultaneous_replace (M : overrides_t) (s : string) : string :=
  simultaneous_from M 0 s.

(** ** When the loop of [gen_driver] is a single pass

    The conditions on an override map and on a template under which the
    sequential loop and the single pass agree. *)

Definition keys (M : overrides_t) : list string := M.*1.

(** The token [k] starts at the head of [s]. *)
Definition key_matches (k s : string) : bool :=
  Str.nonempty k && String.prefix k s.

Definition matches_any (ks : list string) (s : string) : bool :=
  existsb (λ k, key_matches k s) ks.

(** No token starts at any of the first [n] positions of [s]. *)
Fixpoint clear_inside (ks : list string) (n : nat) (s : string) : bool :=
  match n with
  | 0 => true
  | S n' =>
      negb (matches_any ks s)
      && match s with
         | "" => true
         | String _ s' => clear_inside ks n' s'
         end
  end.

(** A token that starts at the head of [s] is not overlapped by a token
    starting inside it. *)
Definition position_ok (ks : list string) (s : string) : bool :=
  forallb (λ k, implb (key_matches k s)
                  (clear_inside ks (String.length k - 1) (Str.drop 1 s))) ks.

(** The occurrences of the tokens in [s] do not overlap. *)
Fixpoint no_overlap (ks : list string) (s : string) : bool :=
  position_ok ks s
  && match s with
     | "" => true
     | String _ s' => no_overlap ks s'
     end.

Definition keys_nonempty (ks : list string) : bool := forallb Str.nonempty ks.

(** No key is a substring of another one of the map (so that the keys are
    also pairwise distinct). *)
Fixpoint no_key_substring (ks : list string) : bool :=
  match ks with
  | [] => true
  | k :: ks' =>
      forallb (λ k', negb (Str.contains k k') && negb (Str.contains k' k)) ks'
      && no_key_substring ks'
  end.

(** Every value is non-empty and has no character in common with the keys
    that come after it in the map. *)
Fixpoint values_clear (M : overrides_t) : bool :=
  match M with
  | [] => true
  | (_, v) :: M' =>
      forallb (λ k', Str.nonempty v && Str.no_common_char v k') (keys M')
      && values_clear M'
  end.

Definition value_clear_of (v : string) (ks : list string) : Prop :=
  ∀ k, k ∈ ks → Str.nonempty v = true ∧ Str.no_common_char v k = true.

(** No key is a proper prefix of another key. *)
Definition prefix_free (ks : list string) : Prop :=
  ∀ a b, a ∈ ks → b ∈ ks → String.prefix a b = true → a = b.


(** The keys have pairwise no character in common. *)
Fixpoint keys_disjoint (ks : list string) : bool :=
  match ks with
  | [] => true
  | k :: ks' =>
      forallb (λ k', Str.no_common_char k k') ks' && keys_disjoint ks'
  end.

(** ** Provenance of the rendered characters

    The same loop over a text whose characters carry a mark: [false] for a
    character of the template, [true] for a character put in by a
    replacement. Next to the text, the instrumented loop returns whether
    some replaced occurrence of a key held a marked character, that is,
    whether a value inserted for one token was afterwards matched and
    replaced for a key. Erasing the marks gives back [str_replace] and
    [render_contents] ([erase_tracked_render]). *)

Definition marked := list (ascii * bool).

Fixpoint mark (b : bool) (s : string) : marked :=
  match s with
  | "" => []
  | String c s' => (c, b) :: mark b s'
  end.

Fixpoint erase (t : marked) : string :=
  match t with
  | [] => ""
  | cb :: t' => String cb.1 (erase t')
  end.

Fixpoint tracked_from (old new : string) (skip : nat) (t : marked)
  : marked * bool :=
  match t with
  | [] => ([], false)
  | cb :: t' =>
      match skip with
      | S n => tracked_from old new n t'
      | O =>
          if String.prefix old (erase (cb :: t'))
          then
            let r := tracked_from old new (String.length old - 1) t' in
            (mark true new ++ r.1,
             existsb snd (take (String.length old) (cb :: t')) || r.2)
          else
            let r := tracked_from old new 0 t' in
            (cb :: r.1, r.2)
      end
  end.

Fixpoint tracked_empty (new : string) (t : marked) : marked :=
  mark true new ++ match t with
                   | [] => []
                   | cb :: t' => cb :: tracked_empty new t'
                   end.

Definition tracked_replace (old new : string) (t : marked) : marked * bool :=
  if Str.nonempty old then tracked_from old new 0 t
  else (tracked_empty new t, false).

Definition tracked_render (overrides : overrides_t) (tmpl_contents : string)
  : marked * bool :=
  foldl (λ acc kv, let r := tracked_replace kv.1 kv.2 acc.1 in
                   (r.1, acc.2 || r.2))
        (mark false tmpl_contents, false) overrides.

(** Some value inserted for a token was replaced for another token's key. *)
Definition rescanned (overrides : overrides_t) (tmpl_contents : string) : bool :=
  (tracked_render overrides tmpl_contents).2.

(** No value has a character in common with a key that comes after it in
    the map. *)
Fixpoint values_apart (M : overrides_t) : bool :=
  match M with
  | [] => true
  | (_, v) :: M' =>
      forallb (λ k', Str.no_common_char v k') (keys M') && values_apart M'
  end.

(** Every marked character of [t] satisfies [P]. *)
Definition marks_in (P : ascii → Prop) (t : marked) : Prop :=
  Forall (λ cb, cb.2 = true → P cb.1) t.

(** ** The file system and the outside world

    A node is a regular file with its contents or a directory. A path is
    compared component by component: links, [.] and [..] are not resolved.
    The empty path stands for the directory the relative paths start
    from. *)

Inductive node := File (contents : string) | Dir.

Abbreviation path := (list string).

(** [os.DirEntry] *)
Record DirEntry := {
  de_name : string;
  de_path : path;
  de_node : node;
}.

Definition is_file (e : DirEntry) : bool :=
  match de_node e with File _ => true | Dir => false end.

Definition is_dir (e : DirEntry) : bool :=
  match de_node e with File _ => false | Dir => true end.

Inductive exn :=
| FileNotFoundError (p : path)
| NotADirectoryError (p : path)
| FileExistsError (p : path)
| IsADirectoryError (p : path)
| TypeError
| CalledProcessError (returncode : Z) (cmd : string)
| SystemExit (code : Z).

(** What a run does that can be observed from outside, in the order it
    happens. [EvGetResults] marks a call of [get_results]. *)
Inductive event :=
| EvPrint (line : string)
| EvWrite (p : path) (contents : string)
| EvRun (cmd : string) (returncode : Z)
| EvGetResults (result_dir : path).

Record world := World {
  w_fs : gmap path node;
  w_trace : list event;
}.

(** What the program does not decide: the scenario root, the names
    [tempfile] draws, the command the shell runs and what [glob] makes of
    a directory name with wildcards in it. *)
Record Env := {
  SCENARIO_DIR : path;
  env_tmp_names : nat → path;
  env_shell : string → gmap path node → gmap path node * Z;
  env_glob_magic : gmap path node → path → list path;
}.

Inductive result (A : Type) :=
| Ok (a : A)
| Raise (e : exn).
Arguments Ok {A} a.
Arguments Raise {A} e.

(** Statements: a result or an exception, and the world they leave. *)
Definition M (A : Type) : Type := world → result A * world.

#[global] Instance M_ret : MRet M := λ A a w, (Ok a, w).

#[global] Instance M_bind : MBind M := λ A B f m w,
  match m w with
  | (Ok a, w') => f a w'
  | (Raise e, w') => (Raise e, w')
  end.

Definition raise {A} (e : exn) : M A := λ w, (Raise e, w).

Definition lift {A} (r : result A) : M A := λ w, (r, w).

Definition emit (ev : event) : M unit :=
  λ w, (Ok tt, World (w_fs w) (w_trace w ++ [ev])).

Definition get_fs : M (gmap path node) := λ w, (Ok (w_fs w), w).

Definition put_fs (fs : gmap path node) : M unit :=
  λ w, (Ok tt, World fs (w_trace w)).

(** [try: body finally: cleanup] *)
Definition finally {A} (body : M A) (cleanup : world → world) : M A :=
  λ w, let r := body w in (r.1, cleanup r.2).

(** [p] is [dir] followed by one name. *)
Fixpoint child_name (dir p : path) : option string :=
  match dir, p with
  | [], [name] => Some name
  | d :: dir', c :: p' => if decide (d = c) then child_name dir' p' else None
  | _, _ => None
  end.

Definition dir_entries (fs : gmap path node) (dir : path) : list DirEntry :=
  omap (λ pn, name ← child_name dir pn.1;
              Some {| de_name := name; de_path := pn.1; de_node := pn.2 |})
       (map_to_list fs).

(** [os.scandir(dir)]: an entry for every node directly in [dir], its
    [path] being [os.path.join(dir, name)]. *)
Definition os_scandir (dir : path) : M (list DirEntry) :=
  fs ← get_fs;
  match fs !! dir with
  | Some Dir => mret (dir_entries fs dir)
  | Some (File _) => raise (NotADirectoryError dir)
  | None => raise (FileNotFoundError dir)
  end.

Definition parent (p : path) : path := take (length p - 1) p.

(** The proper ancestors of [p], the nearest last. *)
Definition ancestors (p : path) : list path :=
  (λ i, take i p) <$> seq 1 (length p - 1).

Definition is_File (fs : gmap path node) (p : path) : bool :=
  match fs !! p with Some (File _) => true | _ => false end.

Definition dir_exists (fs : gmap path node) (p : path) : bool :=
  match p with
  | [] => true
  | _ => match fs !! p with Some Dir => true | _ => false end
  end.

(** [Path(p).mkdir(parents=True, exist_ok=True)] *)
Definition mkdir_p (p : path) : M unit :=
  fs ← get_fs;
  match List.find (is_File fs) (ancestors p) with
  | Some a => raise (NotADirectoryError a)
  | None =>
      if is_File fs p then raise (FileExistsError p)
      else put_fs (foldr (λ q, <[q := Dir]>) fs (ancestors p ++ [p]))
  end.

(** [open(p, "r").read()] *)
Definition open_read (p : path) : M string :=
  fs ← get_fs;
  match fs !! p with
  | Some (File contents) => mret contents
  | Some Dir => raise (IsADirectoryError p)
  | None => raise (FileNotFoundError p)
  end.

(** [open(p, "w").write(contents)] *)
Definition open_write (p : path) (contents : string) : M unit :=
  fs ← get_fs;
  match fs !! p with
  | Some Dir => raise (IsADirectoryError p)
  | _ =>
      if dir_exists fs (parent p)
      then put_fs (<[p := File contents]> fs);; emit (EvWrite p contents)
      else raise (FileNotFoundError p)
  end.

(** [tempfile.mkdtemp]: the first drawn name that [os.mkdir] accepts, out
    of at most [TMP_MAX]. *)
Definition TMP_MAX : nat := 100 * 100.

Fixpoint mkdtemp_from (names : nat → path) (fs : gmap path node)
    (fuel i : nat) : result path :=
  match fuel with
  | 0 => Raise (FileExistsError [])
  | S fuel' =>
      let file := names i in
      match fs !! file with
      | Some _ => mkdtemp_from names fs fuel' (S i)
      | None =>
          if dir_exists fs (parent file) then Ok file
          else Raise (FileNotFoundError file)
      end
  end.

Definition mkdtemp (env : Env) (fs : gmap path node) : result path :=
  mkdtemp_from (env_tmp_names env) fs TMP_MAX 0.

(** [shutil.rmtree(d)] *)
Definition rmtree (d : path) (fs : gmap path node) : gmap path node :=
  filter (λ pn, ¬ d `prefix_of` pn.1) fs.

(** [with tempfile.TemporaryDirectory() as d: body]: the directory is
    made, the body runs, and the tree under [d] is removed however the
    body ends. *)
Definition with_TemporaryDirectory {A} (env : Env) (body : path → M A) : M A :=
  fs ← get_fs;
  d ← lift (mkdtemp env fs);
  put_fs (<[d := Dir]> fs);;
  finally (body d) (λ w, World (rmtree d (w_fs w)) (w_trace w)).

(** [glob.glob(os.path.join(dir, "*.json"), recursive=False)]: the entries
    of [dir] whose name matches [*.json], a pattern that no name with a
    leading dot matches; no entry when [dir] cannot be listed. A wildcard
    in [dir] itself is expanded by [glob] too ([env_glob_magic]). *)
Definition has_magic_char (s : string) : bool :=
  Str.has_char "*" s || Str.has_char "?" s || Str.has_char "[" s.

Definition has_magic (p : path) : bool := existsb has_magic_char p.

Definition is_hidden (name : string) : bool := String.prefix "." name.

Definition matches_json (name : string) : bool :=
  negb (is_hidden name) && Str.endswith name ".json".

Definition glob_json (env : Env) (dir : path) : M (list path) :=
  fs ← get_fs;
  if has_magic dir then mret (env_glob_magic env fs dir)
  else
    match fs !! dir with
    | Some Dir =>
        mret (de_path <$> List.filter (λ e, matches_json (de_name e))
                                      (dir_entries fs dir))
    | _ => mret []
    end.

(** [subprocess.run(cmd, shell=True, check=True)]: the call returns when
    the command has ended. *)
Definition subprocess_run (env : Env) (cmd : string) : M unit :=
  fs ← get_fs;
  let r := env_shell env cmd fs in
  put_fs r.1;;
  emit (EvRun cmd r.2);;
  if decide (r.2 = 0%Z) then mret tt else raise (CalledProcessError r.2 cmd).

(** [sep.join(xs)]: every item has to be a [str]. *)
Inductive pyval :=
| PyStr (s : string)
| PyDirEntry (e : DirEntry).

Fixpoint str_items (xs : list pyval) : result (list string) :=
  match xs with
  | [] => Ok []
  | PyStr s :: xs' =>
      match str_items xs' with
      | Ok l => Ok (s :: l)
      | Raise e => Raise e
      end
  | PyDirEntry _ :: _ => Raise TypeError
  end.

Definition str_join (sep : string) (xs : list pyval) : result string :=
  match str_items xs with
  | Ok l => Ok (String.concat sep l)
  | Raise e => Raise e
  end.

(** The text of a path. *)
Definition path_str (p : path) : string := String.concat "/" p.

(** ** The functions of [bench_hstream_kafka.py] *)

(** [print] of [loginfo]: the line in the colour escape. *)
Definition ESC : string := String (ascii_of_nat 27) "".

Definition loginfo (s : string) : M unit :=
  emit (EvPrint (ESC +:+ "[96m" +:+ s +:+ ESC +:+ "[0m")).

Definition get_scenarios (env : Env) : M (list string) :=
  entries ← os_scandir (SCENARIO_DIR env);
  mret (de_name <$> List.filter is_dir entries).

Definition get_driver_tmpls (env : Env) (scenario : string) : M (list DirEntry) :=
  let scenario_dir := SCENARIO_DIR env ++ [scenario] in
  let driver_tmpl_dir := scenario_dir ++ ["driver-tmpls"] in
  entries ← os_scandir driver_tmpl_dir;
  mret (List.filter is_file entries).

Definition get_workloads (env : Env) (scenario : string) : M (list DirEntry) :=
  let scenario_dir := SCENARIO_DIR env ++ [scenario] in
  let workloads_dir := scenario_dir ++ ["workloads"] in
  entries ← os_scandir workloads_dir;
  mret (List.filter is_file entries).

Definition get_results (env : Env) (result_dir : path) : M (list path) :=
  emit (EvGetResults result_dir);;
  glob_json env result_dir.

(** One turn of the loop of [gen_driver]: the template is read, the
    overrides are applied, the rendered text is written under the name of
    the template and its path is yielded. *)
Definition gen_driver_step (driver_dir : path) (overrides : overrides_t)
    (driver_tmpl : DirEntry) : M path :=
  tmpl_contents ← open_read (de_path driver_tmpl);
  let tmpl_contents := render_contents overrides tmpl_contents in
  let driver_filepath := driver_dir ++ [de_name driver_tmpl] in
  open_write driver_filepath tmpl_contents;;
  mret driver_filepath.

(** [list(gen_driver())] *)
Fixpoint gen_driver (driver_dir : path) (overrides : overrides_t)
    (driver_tmpls : list DirEntry) : M (list path) :=
  match driver_tmpls with
  | [] => mret []
  | driver_tmpl :: rest =>
      driver_filepath ← gen_driver_step driver_dir overrides driver_tmpl;
      paths ← gen_driver driver_dir overrides rest;
      mret (driver_filepath :: paths)
  end.

Definition setup_drivers (driver_tmpls : list DirEntry) (scenario : string)
    (gen_dir : path) (overrides : overrides_t) : M (list path) :=
  let driver_dir := gen_dir ++ [scenario; "drivers"] in
  mkdir_p driver_dir;;
  gen_driver driver_dir overrides driver_tmpls.

(** The parsed command line. An option that takes names ([nargs="*"]) is
    [None] when it is not given and the list of the names, maybe empty,
    when it is. *)
Record Args := {
  a_kafka : string;
  a_hstream : string;
  a_scenario : option (list string);
  a_driver : option (list string);
  a_workload : option (list string);
  a_result_dir : path;
}.

(** The truth value of such an option: [None] and [[]] are false. *)
Definition truthy {A} (o : option (list A)) : bool :=
  match o with
  | Some (_ :: _) => true
  | _ => false
  end.

(** <<
    if args["driver"]:
        driver_tmpls = [d for d in driver_tmpls if d.name in args["driver"]]
>> and the same for the workloads. *)
Definition select_by_name (arg : option (list string))
    (entries : list DirEntry) : list DirEntry :=
  if truthy arg
  then List.filter (λ d, bool_decide (de_name d ∈ default [] arg)) entries
  else entries.

(** [choices=all_scenarios]: a name that is not a scenario ends the run
    with status 2. *)
Definition parse_args (args : Args) (all_scenarios : list string) : M unit :=
  if forallb (λ s, bool_decide (s ∈ all_scenarios)) (default [] (a_scenario args))
  then mret tt
  else raise (SystemExit 2).

Definition kafka_driver_overrides (args : Args) : overrides_t :=
  [("__NAME__", "kafka"); ("__BOOTSTRAP_SERVERS__", a_kafka args)].

Definition hstream_driver_overrides (args : Args) : overrides_t :=
  [("__NAME__", "hstream-kafka"); ("__BOOTSTRAP_SERVERS__", a_hstream args)].

(** The body of the [with] statement, for the scenario [s] and the
    temporary directory [d]. *)
Definition scenario_body (env : Env) (args : Args) (s : string) (d : path)
  : M unit :=
  let result_dir := a_result_dir args in
  let kafka_dir := d ++ ["kafka"] in
  mkdir_p kafka_dir;;
  let hstream_dir := d ++ ["hstream"] in
  mkdir_p hstream_dir;;
  let out_dir := result_dir ++ [s] in
  mkdir_p out_dir;;
  driver_tmpls ← get_driver_tmpls env s;
  let driver_tmpls := select_by_name (a_driver args) driver_tmpls in
  kafka_drivers ←
    setup_drivers driver_tmpls s kafka_dir (kafka_driver_overrides args);
  hstream_drivers ←
    setup_drivers driver_tmpls s hstream_dir (hstream_driver_overrides args);
  workloads ← get_workloads env s;
  let workloads := select_by_name (a_workload args) workloads in
  cmd_drivers ←
    lift (str_join "," (PyStr ∘ path_str <$> kafka_drivers ++ hstream_drivers));
  cmd_workloads ← lift (str_join " " (PyDirEntry <$> workloads));
  let bench_cmd :=
    "bin/benchmark -d " +:+ cmd_drivers +:+ " -od " +:+ path_str out_dir
    +:+ " " +:+ cmd_workloads in
  loginfo ("Run command: " +:+ bench_cmd);;
  subprocess_run env bench_cmd;;
  results ← get_results env out_dir;
  match results with
  | _ :: _ =>
      let draw_cmd :=
        "bin/create_charts.py -o " +:+ path_str out_dir +:+ " -r "
        +:+ String.concat " " (path_str <$> results) in
      loginfo ("Run command: " +:+ draw_cmd)
  | [] => mret tt
  end.

(** One turn of [for s in scenarios]. *)
Definition scenario_iteration (env : Env) (args : Args) (s : string) : M unit :=
  with_TemporaryDirectory env (scenario_body env args s).

(** [for x in xs: f(x)]: an exception ends the loop. *)
Fixpoint for_each {A} (xs : list A) (f : A → M unit) : M unit :=
  match xs with
  | [] => mret tt
  | x :: xs' => f x;; for_each xs' f
  end.

Definition main (env : Env) (args : Args) : M unit :=
  all_scenarios ← get_scenarios env;
  parse_args args all_scenarios;;
  let scenarios :=
    if truthy (a_scenario args) then default [] (a_scenario args)
    else all_scenarios in
  for_each scenarios (scenario_iteration env args).

(** The status the process ends with: 0 when [main] returns, the code of
    a [SystemExit], 1 for any other exception. *)
Definition exit_status (r : result unit) : Z :=
  match r with
  | Ok _ => 0
  | Raise (SystemExit code) => code
  | Raise _ => 1
  end.

(** ** Reading a trace *)

(** The paths written, in the order of the writes. *)
Definition written (tr : list event) : list path :=
  omap (λ ev, match ev with EvWrite p _ => Some p | _ => None end) tr.

Definition is_write (ev : event) : Prop :=
  match ev with EvWrite _ _ => True | _ => False end.

Definition is_run (ev : event) : Prop :=
  match ev with EvRun _ _ => True | _ => False end.

Definition is_get_results (ev : event) : Prop :=
  match ev with EvGetResults _ => True | _ => False end.

(** ** The result files, after the specification

    "the set of files directly inside [outputDirectory] whose name matches
    a result-artifact extension": the regular files of the directory
    whose name ends in [.json]. The code is compared with it. *)
Definition json_files (fs : gmap path node) (dir : path) : list path :=
  de_path <$> List.filter (λ e, is_file e && Str.endswith (de_name e) ".json")
                          (dir_entries fs dir).

(** A write of a file in the tree of [d]. *)
Definition is_write_under (d : path) (ev : event) : Prop :=
  match ev with EvWrite p _ => d `prefix_of` p | _ => False end.

Definition is_print (ev : event) : Prop :=
  match ev with EvPrint _ => True | _ => False end.

(** ** Inputs of the examples *)

(** The template and the override map of the example of the
    specification. *)
Definition spec_template : string := "__NAME__ connects to __BOOTSTRAP_SERVERS__".

Definition spec_overrides : overrides_t :=
  [("__NAME__", "kafka"); ("__BOOTSTRAP_SERVERS__", "localhost:9092")].

(** A map in which the value of the first token is the key of the second. *)
Definition chain_overrides : overrides_t := [("A", "B"); ("B", "C")].

Definition nested_overrides : overrides_t :=
  [("__NAME__", "__BOOTSTRAP_SERVERS__");
   ("__BOOTSTRAP_SERVERS__", "localhost:9092")].

(** An environment: the scenarios are under [p/scenarios], the temporary
    directory is [tmp/d], the benchmark command leaves the files as they
    are and ends with the status [code]. *)
Definition ex_env (code : Z) : Env := {|
  SCENARIO_DIR := ["p"; "scenarios"];
  env_tmp_names := λ _, ["tmp"; "d"];
  env_shell := λ _ fs, (fs, code);
  env_glob_magic := λ _ _, [];
|}.

(** A scenario [s1] with two templates and an empty [workloads]
    directory, and a scenario [s2] with one template. *)
Definition ex_fs : gmap path node :=
  list_to_map [
    (["p"], Dir);
    (["p"; "scenarios"], Dir);
    (["p"; "scenarios"; "s1"], Dir);
    (["p"; "scenarios"; "s1"; "driver-tmpls"], Dir);
    (["p"; "scenarios"; "s1"; "driver-tmpls"; "kafka.yaml"],
     File "name: __NAME__ at __BOOTSTRAP_SERVERS__");
    (["p"; "scenarios"; "s1"; "driver-tmpls"; "acks.yaml"],
     File "__NAME__: acks=all");
    (["p"; "scenarios"; "s1"; "workloads"], Dir);
    (["p"; "scenarios"; "s2"], Dir);
    (["p"; "scenarios"; "s2"; "driver-tmpls"], Dir);
    (["p"; "scenarios"; "s2"; "driver-tmpls"; "kafka.yaml"], File "__NAME__");
    (["p"; "scenarios"; "s2"; "workloads"], Dir);
    (["tmp"], Dir)].

(** The same with one workload in [s1]. *)
Definition ex_fs_workload : gmap path node :=
  <[ ["p"; "scenarios"; "s1"; "workloads"; "1-topic.yaml"] := File "topics: 1" ]>
    ex_fs.

(** The same without the [workloads] directory of [s1]. *)
Definition ex_fs_no_workloads : gmap path node :=
  delete ["p"; "scenarios"; "s1"; "workloads"] ex_fs.

(** The same without the [driver-tmpls] directory of [s1]. *)
Definition ex_fs_no_tmpls : gmap path node :=
  filter (λ pn, ¬ ["p"; "scenarios"; "s1"; "driver-tmpls"] `prefix_of` pn.1)
         ex_fs.

Definition ex_args : Args := {|
  a_kafka := "localhost:9092";
  a_hstream := "localhost:9093";
  a_scenario := None;
  a_driver := None;
  a_workload := None;
  a_result_dir := ["results"];
|}.

Definition ex_args_s1 : Args := {|
  a_kafka := "localhost:9092";
  a_hstream := "localhost:9093";
  a_scenario := Some ["s1"];
  a_driver := None;
  a_workload := None;
  a_result_dir := ["results"];
|}.

(** An output directory with two result files, a text file, a hidden
    [.json] file and a subdirectory named like a result file. *)
Definition ex_results_fs : gmap path node :=
  list_to_map [
    (["results"], Dir);
    (["results"; "s1"], Dir);
    (["results"; "s1"; "a.json"], File "{}");
    (["results"; "s1"; "b.json"], File "{}");
    (["results"; "s1"; "c.txt"], File "");
    (["results"; "s1"; "sub"], Dir);
    (["results"; "s1"; "sub"; "deep.json"], File "{}")].

Definition ex_results_fs_odd : gmap path node :=
  list_to_map [
    (["results"], Dir);
    (["results"; "s1"], Dir);
    (["results"; "s1"; "a.json"], File "{}");
    (["results"; "s1"; ".b.json"], File "{}");
    (["results"; "s1"; "d.json"], Dir)].

(** The benchmark command of the scenario [s2] in [ex_fs]. *)
Definition ex_cmd_s2 : string :=
  "bin/benchmark -d tmp/d/kafka/s2/drivers/kafka.yaml,tmp/d/hstream/s2/drivers/kafka.yaml -od results/s2 ".

(** ** Further notions used in the statements *)

(** Every value of the map is non-empty and has no character in common
    with any key of the map. *)
Definition values_off_keys (M : overrides_t) : bool :=
  forallb (λ kv, Str.nonempty kv.2
                 && forallb (λ k0, Str.no_common_char kv.2 k0) (keys M)) M.

(** The statement [m] adds to the trace only events that satisfy [Q]. *)
Definition emits {A} (Q : event → Prop) (m : M A) : Prop :=
  ∀ w r w', m w = (r, w') →
            ∃ tr, w_trace w' = w_trace w ++ tr ∧ Forall Q tr.

(** The events a run of [main] can leave: a write below a directory that
    [tempfile] named, a run of the benchmark command, a search for the
    results of a scenario, a printed line. *)
Definition main_event (env : Env) (args : Args) (ev : event) : Prop :=
  match ev with
  | EvWrite p _ => ∃ i, env_tmp_names env i `prefix_of` p
  | EvRun cmd _ => String.prefix "bin/benchmark -d " cmd = true
  | EvGetResults dir => ∃ s, dir = a_result_dir args ++ [s]
  | EvPrint _ => True
  end.

(** The line [loginfo] prints for [s]. *)
Definition coloured (s : string) : string :=
  ESC +:+ "[96m" +:+ s +:+ ESC +:+ "[0m".

(** What [glob_json] returns for the directory [dir] of [fs]. *)
Definition json_matches (env : Env) (fs : gmap path node) (dir : path)
  : list path :=
  if has_magic dir then env_glob_magic env fs dir
  else
    match fs !! dir with
    | Some Dir =>
        de_path <$> List.filter (λ e, matches_json (de_name e))
                                (dir_entries fs dir)
    | _ => []
    end.

(** The benchmark command [main] builds for the driver files
    [drivers], the output directory [out_dir] and the text
    [cmd_workloads] of the workloads. *)
Definition bench_cmd_of (drivers : list path) (out_dir : path)
    (cmd_workloads : string) : string :=
  "bin/benchmark -d " +:+ String.concat "," (path_str <$> drivers)
  +:+ " -od " +:+ path_str out_dir +:+ " " +:+ cmd_workloads.

(** The chart command [main] prints for the result files [results]. *)
Definition draw_cmd_of (out_dir : path) (results : list path) : string :=
  "bin/create_charts.py -o " +:+ path_str out_dir +:+ " -r "
  +:+ String.concat " " (path_str <$> results).

(** The regular files directly in [dir], as [os.scandir] and [is_file]
    give them. *)
Definition files_in (fs : gmap path node) (dir : path) : list DirEntry :=
  List.filter is_file (dir_entries fs dir).

(** The statement [m] leaves the node [nd] at the path [q] as it is. *)
Definition keeps {A} (q : path) (nd : node) (m : M A) : Prop :=
  ∀ w r w', m w = (r, w') → w_fs w !! q = Some nd → w_fs w' !! q = Some nd.


(** * Part II: properties *)

(** ** Strings *)

Module StrFacts.

Lemma app_nil_l (s : string) : "" +:+ s = s.
Proof. reflexivity. Qed.

Lemma app_cons (c : ascii) (s t : string) :
  String c s +:+ t = String c (s +:+ t).
Proof. reflexivity. Qed.

Lemma app_nil_r (s : string) : s +:+ "" = s.
Proof. induction s as [|c s IH]; [done|]. by rewrite app_cons, IH. Qed.

Lemma app_assoc (s t u : string) : (s +:+ t) +:+ u = s +:+ (t +:+ u).
Proof.
  induction s as [|c s IH]; [done|]. by rewrite !app_cons, IH.
Qed.

Lemma length_app (s t : string) :
  String.length (s +:+ t) = String.length s + String.length t.
Proof.
  induction s as [|c s IH]; [done|]. rewrite app_cons. simpl. by rewrite IH.
Qed.

Lemma prefix_nil (s : string) : String.prefix "" s = true.
Proof. by destruct s. Qed.

Lemma prefix_cons (c d : ascii) (p s : string) :
  String.prefix (String c p) (String d s)
  = bool_decide (c = d) && String.prefix p s.
Proof.
  simpl. destruct (ascii_dec c d) as [->|Hne].
  - by rewrite bool_decide_eq_true_2.
  - by rewrite bool_decide_eq_false_2.
Qed.

Lemma prefix_cons_nil (c : ascii) (p : string) :
  String.prefix (String c p) "" = false.
Proof. reflexivity. Qed.

Lemma prefix_app (p s : string) : String.prefix p (p +:+ s) = true.
Proof.
  induction p as [|c p IH]; [apply prefix_nil|].
  rewrite app_cons, prefix_cons, IH. by rewrite bool_decide_eq_true_2.
Qed.

Lemma prefix_split (p s : string) :
  String.prefix p s = true → s = p +:+ Str.drop (String.length p) s.
Proof.
  revert s. induction p as [|c p IH]; intros s H; [done|].
  destruct s as [|d s]; [done|].
  rewrite prefix_cons in H. apply andb_true_iff in H as [Hc Hp].
  apply bool_decide_eq_true in Hc as ->.
  rewrite app_cons. simpl. f_equal. by apply IH.
Qed.

Lemma prefix_iff (p s : string) :
  String.prefix p s = true ↔ ∃ t, s = p +:+ t.
Proof.
  split.
  - intros H. eexists. by apply prefix_split.
  - intros [t ->]. apply prefix_app.
Qed.

Lemma drop_app_length (p s : string) :
  Str.drop (String.length p) (p +:+ s) = s.
Proof. induction p as [|c p IH]; [by destruct s|]. by rewrite app_cons. Qed.

Lemma app_inv_head (p s t : string) : p +:+ s = p +:+ t → s = t.
Proof.
  induction p as [|c p IH]; [done|]. rewrite !app_cons. intros [= H]. auto.
Qed.

(** Strong induction on the length of a string. *)
Lemma length_ind (P : string → Prop) :
  (∀ s, (∀ t, String.length t < String.length s → P t) → P s) → ∀ s, P s.
Proof.
  intros H s. remember (String.length s) as n eqn:Hn.
  revert s Hn. induction (lt_wf n) as [n _ IH]. intros s ->.
  apply H. intros t Ht. by eapply IH.
Qed.

Lemma nonempty_length (s : string) :
  Str.nonempty s = true → 0 < String.length s.
Proof. destruct s; [done|]. simpl. lia. Qed.

End StrFacts.

(** ** [str.replace] *)

Example replace_ex1 : str_replace "ab" "x" "abcabab" = "xcxx".
Proof. reflexivity. Qed.
Example replace_ex2 : str_replace "aa" "b" "aaa" = "ba".
Proof. reflexivity. Qed.
Example replace_ex3 : str_replace "" "-" "abc" = "-a-b-c-".
Proof. reflexivity. Qed.
Example replace_ex4 : str_replace "a" "aa" "aa" = "aaaa".
Proof. reflexivity. Qed.

(** Equations of [str_replace] for a non-empty [old]. *)

Lemma replace_from_skip (old new : string) (n : nat) (s : string) :
  replace_from old new n s = replace_from old new 0 (Str.drop n s).
Proof.
  revert n. induction s as [|c s IH]; intros [|n]; try done. simpl. apply IH.
Qed.

Lemma str_replace_nil (old new : string) :
  Str.nonempty old = true → str_replace old new "" = "".
Proof. unfold str_replace. by intros ->. Qed.

Lemma str_replace_match (old new s : string) :
  Str.nonempty old = true →
  str_replace old new (old +:+ s) = new +:+ str_replace old new s.
Proof.
  unfold str_replace. intros Hne. rewrite Hne.
  destruct old as [|c old]; [done|]. rewrite StrFacts.app_cons.
  cbn [replace_from]. rewrite <- StrFacts.app_cons, StrFacts.prefix_app.
  f_equal. rewrite replace_from_skip. cbn [String.length].
  by rewrite Nat.sub_succ, Nat.sub_0_r, StrFacts.drop_app_length.
Qed.

Lemma str_replace_skip (old new : string) (c : ascii) (s : string) :
  String.prefix old (String c s) = false →
  str_replace old new (String c s) = String c (str_replace old new s).
Proof.
  unfold str_replace. intros Hp.
  destruct old as [|d old]; [done|]. cbn [Str.nonempty replace_from].
  by rewrite Hp.
Qed.

Lemma simultaneous_from_skip (M : overrides_t) (n : nat) (s : string) :
  simultaneous_from M n s = simultaneous_from M 0 (Str.drop n s).
Proof.
  revert n. induction s as [|c s IH]; intros [|n]; try done. simpl. apply IH.
Qed.

Lemma first_match_Some (M : overrides_t) (s k v : string) :
  first_match M s = Some (k, v) →
  Str.nonempty k = true ∧ String.prefix k s = true ∧ (k, v) ∈ M.
Proof.
  induction M as [|[k' v'] M IH]; [done|]. simpl.
  destruct (Str.nonempty k' && String.prefix k' s) eqn:E.
  - intros [= -> ->]. apply andb_true_iff in E as [??].
    repeat split; [done..|by left].
  - intros H. destruct (IH H) as (?&?&?). repeat split; [done..|by right].
Qed.

Lemma first_match_None (M : overrides_t) (s : string) :
  first_match M s = None ↔
  ∀ k v, (k, v) ∈ M → Str.nonempty k = true → String.prefix k s = false.
Proof.
  induction M as [|[k' v'] M IH]; simpl.
  - split; [|done]. intros _ k v H. by apply elem_of_nil in H.
  - destruct (Str.nonempty k' && String.prefix k' s) eqn:E.
    + split; [done|]. intros H.
      apply andb_true_iff in E as [Hk' Hp].
      rewrite (H k' v') in Hp; [done|by left|done].
    + rewrite IH. split.
      * intros H k v [[= -> ->]|Hin]%elem_of_cons Hk; [|by eauto].
        rewrite Hk in E. done.
      * intros H k v Hin. apply (H k v). by right.
Qed.

Lemma simultaneous_nil (M : overrides_t) : simultaneous_replace M "" = "".
Proof. reflexivity. Qed.

Lemma simultaneous_match (M : overrides_t) (k v s : string) :
  first_match M (k +:+ s) = Some (k, v) →
  simultaneous_replace M (k +:+ s) = v +:+ simultaneous_replace M s.
Proof.
  intros H. destruct (first_match_Some _ _ _ _ H) as (Hne & _ & _).
  unfold simultaneous_replace. destruct k as [|c k]; [done|].
  rewrite StrFacts.app_cons in *. cbn [simultaneous_from]. rewrite H.
  f_equal. rewrite simultaneous_from_skip. cbn [String.length].
  by rewrite Nat.sub_succ, Nat.sub_0_r, StrFacts.drop_app_length.
Qed.

Lemma simultaneous_skip (M : overrides_t) (c : ascii) (s : string) :
  first_match M (String c s) = None →
  simultaneous_replace M (String c s) = String c (simultaneous_replace M s).
Proof.
  unfold simultaneous_replace. intros H. cbn [simultaneous_from]. by rewrite H.
Qed.

Example simultaneous_ex1 :
  simultaneous_replace [("A", "B"); ("B", "C")] "A-B" = "B-C".
Proof. reflexivity. Qed.

Lemma key_matches_nil (k : string) : key_matches k "" = false.
Proof. by destruct k. Qed.

Lemma matches_any_false (ks : list string) (s : string) :
  matches_any ks s = false ↔ ∀ k, k ∈ ks → key_matches k s = false.
Proof.
  unfold matches_any. induction ks as [|k ks IH]; simpl.
  - split; [|done]. intros _ k H. by apply elem_of_nil in H.
  - rewrite orb_false_iff, IH. split.
    + intros [H1 H2] k' [->|Hin]%elem_of_cons; auto.
    + intros H. split; [apply H; by left|]. intros k' Hin. apply H. by right.
Qed.

Lemma matches_any_nil (ks : list string) : matches_any ks "" = false.
Proof. apply matches_any_false. intros k _. apply key_matches_nil. Qed.

Lemma position_ok_no_match (ks : list string) (s : string) :
  matches_any ks s = false → position_ok ks s = true.
Proof.
  intros H. unfold position_ok. apply forallb_forall. intros k Hin.
  apply list_elem_of_In in Hin.
  by rewrite (proj1 (matches_any_false ks s) H k Hin).
Qed.

Lemma first_match_keys_None (M : overrides_t) (s : string) :
  matches_any (keys M) s = false → first_match M s = None.
Proof.
  intros H. apply first_match_None. intros k v Hin Hk.
  assert (k ∈ keys M) as Hk' by (apply list_elem_of_fmap; by exists (k, v)).
  pose proof (proj1 (matches_any_false _ _) H k Hk') as Hm.
  unfold key_matches in Hm. by rewrite Hk in Hm.
Qed.

Lemma no_overlap_cons (ks : list string) (c : ascii) (s : string) :
  no_overlap ks (String c s) = position_ok ks (String c s) && no_overlap ks s.
Proof. reflexivity. Qed.

Lemma no_overlap_app_r (ks : list string) (a b : string) :
  no_overlap ks (a +:+ b) = true → no_overlap ks b = true.
Proof.
  induction a as [|c a IH]; [done|]. rewrite StrFacts.app_cons, no_overlap_cons.
  intros [_ H]%andb_true_iff. auto.
Qed.

Lemma clear_inside_app (ks : list string) (a b : string) :
  (∀ i, i < String.length a → matches_any ks (Str.drop i (a +:+ b)) = false) →
  clear_inside ks (String.length a) (a +:+ b) = true.
Proof.
  induction a as [|c a IH]; intros H; [done|].
  rewrite StrFacts.app_cons. cbn [String.length clear_inside].
  apply andb_true_iff. split.
  - apply negb_true_iff. apply (H 0). simpl. lia.
  - apply IH. intros i Hi. apply (H (S i)). simpl. lia.
Qed.

Lemma clear_inside_drop (ks : list string) (n i : nat) (s : string) :
  clear_inside ks n s = true → i < n → i < String.length s →
  matches_any ks (Str.drop i s) = false.
Proof.
  revert i s. induction n as [|n IH]; intros i s H Hi Hl; [lia|].
  simpl in H. apply andb_true_iff in H as [H0 H]. apply negb_true_iff in H0.
  destruct i as [|i]; [by destruct s|].
  destruct s as [|c s]; [simpl in Hl; lia|]. simpl. apply IH; [done|lia|].
  simpl in Hl. lia.
Qed.

Lemma drop_app_le (i : nat) (a b : string) :
  i ≤ String.length a → Str.drop i (a +:+ b) = Str.drop i a +:+ b.
Proof.
  revert a. induction i as [|i IH]; intros a Hi.
  - by destruct a, b.
  - destruct a as [|c a]; [simpl in Hi; lia|]. rewrite StrFacts.app_cons. simpl.
    apply IH. simpl in Hi. lia.
Qed.

Lemma has_char_head_match (c : ascii) (k s : string) :
  key_matches k (String c s) = true → Str.has_char c k = true.
Proof.
  unfold key_matches. destruct k as [|d k]; [done|].
  rewrite StrFacts.prefix_cons. simpl.
  intros [Hd _]%andb_true_iff. apply bool_decide_eq_true in Hd as ->.
  by rewrite bool_decide_eq_true_2.
Qed.

Lemma no_common_char_tail (v : string) (c : ascii) (k : string) :
  Str.no_common_char v (String c k) = true → Str.no_common_char v k = true.
Proof.
  induction v as [|d v IH]; [done|]. simpl.
  intros [H1 H2]%andb_true_iff. apply andb_true_iff. split; [|auto].
  apply negb_true_iff in H1. apply orb_false_iff in H1 as [_ ->]. done.
Qed.

(** A key that starts some text after a replacement by a value it shares
    no character with already started the text before it. *)
Lemma prefix_replace_reflect (k v k2 s : string) :
  Str.nonempty k = true → Str.nonempty v = true →
  Str.no_common_char v k2 = true →
  String.prefix k2 (str_replace k v s) = true → String.prefix k2 s = true.
Proof.
  intros Hk Hv. revert k2. induction s as [|c s IH]; intros k2 Hd.
  - by rewrite str_replace_nil.
  - destruct k2 as [|e k3]; [done|].
    destruct (String.prefix k (String c s)) eqn:Hp.
    + rewrite (StrFacts.prefix_split _ _ Hp), str_replace_match by done.
      destruct v as [|d v]; [done|]. rewrite StrFacts.app_cons, StrFacts.prefix_cons.
      intros [He _]%andb_true_iff. apply bool_decide_eq_true in He as ->.
      simpl in Hd. by rewrite bool_decide_eq_true_2 in Hd.
    + rewrite str_replace_skip, !StrFacts.prefix_cons by done.
      intros [He H]%andb_true_iff. rewrite He. simpl.
      apply IH; [|done]. by eapply no_common_char_tail.
Qed.

Lemma matches_any_replace (k v : string) (ks : list string) (s : string) :
  Str.nonempty k = true → value_clear_of v ks →
  matches_any ks s = false → matches_any ks (str_replace k v s) = false.
Proof.
  intros Hk Hv H. apply matches_any_false. intros k2 Hin.
  pose proof (proj1 (matches_any_false _ _) H k2 Hin) as Hm.
  destruct (Hv k2 Hin) as [Hv1 Hv2]. unfold key_matches in *.
  destruct (Str.nonempty k2); [simpl in *|done].
  destruct (String.prefix k2 (str_replace k v s)) eqn:E; [|done].
  by rewrite (prefix_replace_reflect _ _ _ _ Hk Hv1 Hv2 E) in Hm.
Qed.

Lemma matches_any_value_head (v : string) (ks : list string) (c : ascii)
    (v' s : string) :
  value_clear_of v ks → v = String c v' →
  matches_any ks (String c s) = false.
Proof.
  intros Hv ->. apply matches_any_false. intros k Hin.
  destruct (Hv k Hin) as [_ Hd]. simpl in Hd.
  apply andb_true_iff in Hd as [Hd _]. apply negb_true_iff in Hd.
  destruct (key_matches k (String c s)) eqn:E; [|done].
  by rewrite (has_char_head_match _ _ _ E) in Hd.
Qed.

Lemma value_clear_of_tail (c : ascii) (v : string) (ks : list string) :
  Str.nonempty v = true →
  value_clear_of (String c v) ks → value_clear_of v ks.
Proof.
  intros Hne Hv k Hin. destruct (Hv k Hin) as [_ Hd]. split; [done|].
  simpl in Hd. by apply andb_true_iff in Hd as [_ ?].
Qed.

(** The single pass leaves an inserted value alone. *)
Lemma simultaneous_value (M : overrides_t) (v s : string) :
  value_clear_of v (keys M) →
  simultaneous_replace M (v +:+ s) = v +:+ simultaneous_replace M s.
Proof.
  induction v as [|c v IH]; intros Hv; [done|].
  rewrite !StrFacts.app_cons, simultaneous_skip.
  - f_equal. destruct v as [|d v]; [done|].
    apply IH. by eapply value_clear_of_tail.
  - apply first_match_keys_None. by eapply matches_any_value_head.
Qed.

Lemma no_overlap_value (ks : list string) (v s : string) :
  value_clear_of v ks →
  no_overlap ks s = true → no_overlap ks (v +:+ s) = true.
Proof.
  induction v as [|c v IH]; intros Hv Hs; [done|].
  rewrite StrFacts.app_cons, no_overlap_cons. apply andb_true_iff. split.
  - apply position_ok_no_match. by eapply matches_any_value_head.
  - destruct v as [|d v]; [done|]. apply IH; [|done].
    by eapply value_clear_of_tail.
Qed.

(** [str.replace] passes over a stretch of text in which the key does not
    start. *)
Lemma str_replace_app_clear (k v : string) (ks : list string) (a b : string) :
  Str.nonempty k = true → k ∈ ks →
  clear_inside ks (String.length a) (a +:+ b) = true →
  str_replace k v (a +:+ b) = a +:+ str_replace k v b.
Proof.
  intros Hk Hin. induction a as [|c a IH]; [done|].
  rewrite !StrFacts.app_cons. cbn [String.length clear_inside].
  intros [H0 H]%andb_true_iff. apply negb_true_iff in H0.
  pose proof (proj1 (matches_any_false _ _) H0 k Hin) as Hm.
  unfold key_matches in Hm. rewrite Hk in Hm. simpl in Hm.
  rewrite str_replace_skip by done. f_equal. auto.
Qed.

Lemma clear_inside_replace (k v : string) (ks ks' : list string) (a s : string) :
  Str.nonempty k = true → k ∈ ks → ks' ⊆ ks → value_clear_of v ks' →
  clear_inside ks (String.length a) (a +:+ s) = true →
  clear_inside ks' (String.length a) (a +:+ str_replace k v s) = true.
Proof.
  intros Hk Hin Hsub Hv. induction a as [|c a IH]; [done|].
  intros H. pose proof H as H'.
  rewrite StrFacts.app_cons in H. cbn [String.length clear_inside] in H.
  apply andb_true_iff in H as [H0 H]. apply negb_true_iff in H0.
  rewrite StrFacts.app_cons. cbn [String.length clear_inside].
  apply andb_true_iff. split; [|auto]. apply negb_true_iff.
  rewrite <- StrFacts.app_cons, <- (str_replace_app_clear k v ks) by done.
  apply matches_any_replace; [done..|].
  apply matches_any_false. intros k2 Hk2.
  apply (proj1 (matches_any_false _ _) H0). auto.
Qed.

Lemma no_overlap_app_clear (ks : list string) (a s : string) :
  clear_inside ks (String.length a) (a +:+ s) = true →
  no_overlap ks s = true → no_overlap ks (a +:+ s) = true.
Proof.
  induction a as [|c a IH]; [done|].
  rewrite StrFacts.app_cons. cbn [String.length clear_inside].
  intros [H0 H]%andb_true_iff Hs. apply negb_true_iff in H0.
  rewrite no_overlap_cons. apply andb_true_iff. split; [|auto].
  by apply position_ok_no_match.
Qed.

Lemma contains_prefix (s k : string) :
  String.prefix k s = true → Str.contains s k = true.
Proof. intros H. destruct s; simpl in *; by rewrite H. Qed.

Lemma no_key_substring_prefix_free (ks : list string) :
  no_key_substring ks = true → prefix_free ks.
Proof.
  induction ks as [|k ks IH]; intros H a b Ha Hb Hp.
  - by apply elem_of_nil in Ha.
  - simpl in H. apply andb_true_iff in H as [H1 H2].
    rewrite forallb_forall in H1.
    apply elem_of_cons in Ha as [->|Ha]; apply elem_of_cons in Hb as [->|Hb].
    + done.
    + apply list_elem_of_In, H1, andb_true_iff in Hb as [_ Hc].
      by rewrite (contains_prefix _ _ Hp) in Hc.
    + apply list_elem_of_In, H1, andb_true_iff in Ha as [Hc _].
      by rewrite (contains_prefix _ _ Hp) in Hc.
    + by apply IH.
Qed.

Lemma prefix_trans (a b s : string) :
  String.prefix a b = true → String.prefix b s = true →
  String.prefix a s = true.
Proof.
  intros [t ->]%StrFacts.prefix_iff [u ->]%StrFacts.prefix_iff.
  rewrite StrFacts.app_assoc. apply StrFacts.prefix_app.
Qed.

Lemma prefix_comparable (a b s : string) :
  String.prefix a s = true → String.prefix b s = true →
  String.prefix a b = true ∨ String.prefix b a = true.
Proof.
  revert b s. induction a as [|c a IH]; intros b s Ha Hb.
  - left. apply StrFacts.prefix_nil.
  - destruct b as [|d b]; [right; apply StrFacts.prefix_nil|].
    destruct s as [|e s]; [done|]. rewrite StrFacts.prefix_cons in Ha, Hb.
    apply andb_true_iff in Ha as [Hc Ha], Hb as [Hd Hb].
    apply bool_decide_eq_true in Hc as ->, Hd as ->.
    rewrite !StrFacts.prefix_cons, !bool_decide_eq_true_2, !andb_true_l by done.
    eauto.
Qed.

(** The entry the single pass takes at a token is the same after the text
    behind the token changed. *)
Lemma first_match_app (M : overrides_t) (k v s s' : string) :
  prefix_free (keys M) →
  first_match M (k +:+ s) = Some (k, v) →
  first_match M (k +:+ s') = Some (k, v).
Proof.
  induction M as [|[k0 v0] M IH]; intros Hpf; [done|]. cbn [first_match].
  destruct (Str.nonempty k0 && String.prefix k0 (k +:+ s)) eqn:E.
  - intros [= -> ->]. apply andb_true_iff in E as [-> _].
    by rewrite StrFacts.prefix_app.
  - intros H. destruct (first_match_Some _ _ _ _ H) as (Hk & _ & Hin).
    assert (k ∈ keys M) as Hkin by (apply list_elem_of_fmap; by exists (k, v)).
    destruct (Str.nonempty k0 && String.prefix k0 (k +:+ s')) eqn:E'.
    + exfalso. apply andb_true_iff in E' as [Hk0 Hp]. rewrite Hk0 in E.
      simpl in E.
      destruct (prefix_comparable k0 k (k +:+ s') Hp (StrFacts.prefix_app _ _))
        as [Hc|Hc].
      * by rewrite (prefix_trans _ _ _ Hc (StrFacts.prefix_app _ _)) in E.
      * assert (k = k0) as ->.
        { apply Hpf; [by right|by left|done]. }
        by rewrite StrFacts.prefix_app in E.
    + apply IH; [|done]. intros a b Ha Hb. apply Hpf; by right.
Qed.

Lemma simultaneous_nil_map (s : string) : simultaneous_replace [] s = s.
Proof.
  induction s as [|c s IH]; [done|]. rewrite simultaneous_skip by done.
  by rewrite IH.
Qed.

(** One turn of the loop of [gen_driver]: replacing the first key of the
    map and passing once over the result with the other keys is the single
    pass with all of them. *)
Lemma simultaneous_step (k v : string) (M : overrides_t) :
  Str.nonempty k = true →
  prefix_free (k :: keys M) →
  value_clear_of v (keys M) →
  ∀ s, no_overlap (k :: keys M) s = true →
       simultaneous_replace ((k, v) :: M) s
       = simultaneous_replace M (str_replace k v s)
       ∧ no_overlap (keys M) (str_replace k v s) = true.
Proof.
  intros Hk Hpf Hv.
  assert (prefix_free (keys M)) as Hpf'.
  { intros a b Ha Hb. apply Hpf; by right. }
  assert (keys M ⊆ k :: keys M) as Hsub by (intros x Hx; by right).
  assert (k ∈ k :: keys M) as Hkin by by left.
  induction s as [s IH] using StrFacts.length_ind. intros Hno.
  destruct s as [|c s].
  { rewrite str_replace_nil by done. split; [done|]. simpl.
    rewrite andb_true_r. apply position_ok_no_match, matches_any_nil. }
  destruct (String.prefix k (String c s)) eqn:Hp.
  - (* the first key starts here *)
    rewrite (StrFacts.prefix_split _ _ Hp) in Hno |- *.
    set (s1 := Str.drop (String.length k) (String c s)) in *.
    assert (String.length s1 < String.length (String c s)) as Hlen.
    { rewrite (StrFacts.prefix_split _ _ Hp), StrFacts.length_app. fold s1.
      pose proof (StrFacts.nonempty_length _ Hk). lia. }
    destruct (IH s1 Hlen (no_overlap_app_r _ _ _ Hno)) as [IH1 IH2].
    rewrite (str_replace_match k v s1 Hk). split.
    + rewrite (simultaneous_value M v _ Hv), <- IH1.
      apply simultaneous_match. cbn [first_match].
      by rewrite Hk, StrFacts.prefix_app.
    + by apply no_overlap_value.
  - (* the first key does not start here *)
    rewrite str_replace_skip by done.
    destruct (first_match M (String c s)) as [[k' v']|] eqn:Hfm.
    + (* another key starts here *)
      destruct (first_match_Some _ _ _ _ Hfm) as (Hk' & Hp' & Hin').
      assert (k' ∈ keys M) as Hk'in
        by (apply list_elem_of_fmap; by exists (k', v')).
      destruct k' as [|e k3]; [done|].
      pose proof (StrFacts.prefix_split _ _ Hp') as Hs.
      remember (Str.drop (String.length (String e k3)) (String c s)) as s2
        eqn:Es2.
      clear Es2. rewrite StrFacts.app_cons in Hs. injection Hs as -> ->.
      assert (String.length s2 < String.length (String e (k3 +:+ s2))) as Hlen.
      { simpl. rewrite StrFacts.length_app. lia. }
      rewrite no_overlap_cons in Hno. apply andb_true_iff in Hno as [Hpos Hno].
      assert (clear_inside (k :: keys M) (String.length k3) (k3 +:+ s2) = true)
        as Hclear.
      { unfold position_ok in Hpos. rewrite forallb_forall in Hpos.
        assert (In (String e k3) (k :: keys M)) as HIn
          by (apply list_elem_of_In; by right).
        specialize (Hpos _ HIn). unfold key_matches in Hpos.
        rewrite Hp' in Hpos. simpl in Hpos.
        by rewrite Nat.sub_0_r in Hpos. }
      destruct (IH s2 Hlen (no_overlap_app_r _ _ _ Hno)) as [IH1 IH2].
      rewrite (str_replace_app_clear k v (k :: keys M)) by done.
      rewrite <- !StrFacts.app_cons. split.
      * rewrite (simultaneous_match M (String e k3) v').
        2:{ eapply first_match_app; [done|]. rewrite StrFacts.app_cons. exact Hfm. }
        rewrite <- IH1. apply simultaneous_match. cbn [first_match].
        rewrite StrFacts.app_cons, Hp. rewrite andb_false_r. exact Hfm.
      * pose proof (clear_inside_replace k v _ (keys M) k3 s2
                      Hk Hkin Hsub Hv Hclear) as Hclear'.
        rewrite StrFacts.app_cons, no_overlap_cons. apply andb_true_iff. split.
        -- unfold position_ok. apply forallb_forall. intros k2 Hk2.
           apply list_elem_of_In in Hk2.
           destruct (key_matches k2 _) eqn:Em; [simpl|done].
           assert (k2 = String e k3) as ->.
           { unfold key_matches in Em. apply andb_true_iff in Em as [_ Em].
             rewrite <- StrFacts.app_cons in Em.
             destruct (prefix_comparable _ _ _ Em (StrFacts.prefix_app (String e k3) _));
               [|symmetry]; by apply Hpf'. }
           simpl. by rewrite Nat.sub_0_r.
        -- by apply no_overlap_app_clear.
    + (* no key starts here *)
      assert (matches_any (k :: keys M) (String c s) = false) as Hnone.
      { apply matches_any_false. intros k2 [->|Hk2]%elem_of_cons.
        - unfold key_matches. by rewrite Hp, andb_false_r.
        - unfold key_matches. destruct (Str.nonempty k2) eqn:Hk2n; [|done].
          apply list_elem_of_fmap in Hk2 as [[k2' v2] [-> Hin2]].
          rewrite andb_true_l.
          exact (proj1 (first_match_None _ _) Hfm _ _ Hin2 Hk2n). }
      assert (matches_any (keys M) (String c (str_replace k v s)) = false)
        as Hnone'.
      { rewrite <- (str_replace_skip k v) by done.
        apply matches_any_replace; [done..|].
        apply matches_any_false. intros k2 Hk2.
        apply (proj1 (matches_any_false _ _) Hnone). by right. }
      rewrite no_overlap_cons in Hno. apply andb_true_iff in Hno as [_ Hno].
      assert (String.length s < String.length (String c s)) as Hlen
        by (simpl; lia).
      destruct (IH s Hlen Hno) as [IH1 IH2]. split.
      * rewrite !simultaneous_skip.
        -- by rewrite IH1.
        -- by apply first_match_keys_None.
        -- cbn [first_match]. by rewrite Hp, andb_false_r.
      * rewrite no_overlap_cons, IH2, andb_true_r.
        by apply position_ok_no_match.
Qed.

(** ** The loop of [gen_driver] against the single pass *)

Lemma render_contents_cons (k v : string) (M : overrides_t) (T : string) :
  render_contents ((k, v) :: M) T = render_contents M (str_replace k v T).
Proof. reflexivity. Qed.

Lemma values_clear_head (k v : string) (M : overrides_t) :
  values_clear ((k, v) :: M) = true → value_clear_of v (keys M).
Proof.
  simpl. intros [H _]%andb_true_iff k' Hin.
  rewrite forallb_forall in H. apply list_elem_of_In, H in Hin.
  by apply andb_true_iff in Hin.
Qed.

(** C2 (as amended). For every template [T] and every override map [M]
    whose keys are non-empty and none a substring of another (hence
    pairwise distinct), whose values are non-empty and share no character
    with the keys that follow them in the map, and for which the
    occurrences of the keys in [T] do not overlap, rendering yields [T]
    with every key of [M] replaced by its mapped value: the sequential
    loop of [gen_driver] and the single pass give the same text. *)
Theorem render_single_pass (M : overrides_t) (T : string) :
  keys_nonempty (keys M) = true →
  no_key_substring (keys M) = true →
  values_clear M = true →
  no_overlap (keys M) T = true →
  render_contents M T = simultaneous_replace M T.
Proof.
  revert T. induction M as [|[k v] M IH]; intros T Hne Hsub Hval Hno.
  - by rewrite simultaneous_nil_map.
  - pose proof (no_key_substring_prefix_free _ Hsub) as Hpf.
    pose proof (values_clear_head _ _ _ Hval) as Hv.
    cbn [keys fmap list_fmap fst keys_nonempty forallb] in Hne.
    apply andb_true_iff in Hne as [Hk Hne].
    cbn [keys fmap list_fmap fst no_key_substring] in Hsub.
    apply andb_true_iff in Hsub as [_ Hsub].
    cbn [values_clear] in Hval. apply andb_true_iff in Hval as [_ Hval].
    destruct (simultaneous_step k v M Hk Hpf Hv T Hno) as [-> Hno'].
    rewrite render_contents_cons. by apply IH.
Qed.

(** The example of the specification is an instance. *)
Lemma render_single_pass_spec_example :
  keys_nonempty (keys spec_overrides) = true
  ∧ no_key_substring (keys spec_overrides) = true
  ∧ values_clear spec_overrides = true
  ∧ no_overlap (keys spec_overrides) spec_template = true
  ∧ render_contents spec_overrides spec_template
    = simultaneous_replace spec_overrides spec_template
  ∧ render_contents spec_overrides spec_template
    = "kafka connects to localhost:9092".
Proof.
  do 4 (split; [vm_compute; reflexivity|]).
  split; [|vm_compute; reflexivity].
  apply render_single_pass; vm_compute; reflexivity.
Defined.

(** C2 as stated fails: the keys ["A"] and ["B"] have no character in
    common and neither is a substring of the other, yet the template
    ["A"] is rendered as ["C"], whereas ["A"] with every key replaced by
    its value is ["B"]. *)
Lemma render_chain_not_single_pass :
  keys_disjoint (keys chain_overrides) = true
  ∧ no_key_substring (keys chain_overrides) = true
  ∧ render_contents chain_overrides "A" = "C"
  ∧ simultaneous_replace chain_overrides "A" = "B"
  ∧ render_contents chain_overrides "A"
    ≠ simultaneous_replace chain_overrides "A".
Proof. repeat split; try (vm_compute; reflexivity). by vm_compute. Qed.

(** The keys of [main] overlap in some templates, and there too the loop
    is not the single pass. *)
Example render_overlap_not_single_pass :
  render_contents spec_overrides "__BOOTSTRAP_SERVERS__NAME__"
  = "__BOOTSTRAP_SERVERSkafka"
  ∧ simultaneous_replace spec_overrides "__BOOTSTRAP_SERVERS__NAME__"
    = "localhost:9092NAME__"
  ∧ no_overlap (keys spec_overrides) "__BOOTSTRAP_SERVERS__NAME__" = false.
Proof. repeat split; vm_compute; reflexivity. Qed.

(** ** The marks are faithful: erasing them gives the code's text *)

Lemma erase_mark (b : bool) (s : string) : erase (mark b s) = s.
Proof. induction s as [|c s IH]; [done|]. simpl. by rewrite IH. Qed.

Lemma erase_app (a b : marked) : erase (a ++ b) = erase a +:+ erase b.
Proof.
  induction a as [|cb a IH]; [done|]. simpl.
  by rewrite StrFacts.app_cons, IH.
Qed.

Lemma erase_tracked_from (old new : string) (n : nat) (t : marked) :
  erase (tracked_from old new n t).1 = replace_from old new n (erase t).
Proof.
  revert n. induction t as [|cb t IH]; intros n; [done|].
  destruct n as [|n]; cbn [tracked_from erase replace_from]; [|apply IH].
  change (String cb.1 (erase t)) with (erase (cb :: t)).
  destruct (String.prefix old (erase (cb :: t))); cbn [fst].
  - by rewrite erase_app, erase_mark, IH.
  - cbn [erase]. by rewrite IH.
Qed.

Lemma erase_tracked_empty (new : string) (t : marked) :
  erase (tracked_empty new t) = replace_empty new (erase t).
Proof.
  induction t as [|cb t IH]; simpl.
  - by rewrite app_nil_r, erase_mark, StrFacts.app_nil_r.
  - rewrite erase_app, erase_mark. simpl. by rewrite IH.
Qed.

Lemma erase_tracked_replace (old new : string) (t : marked) :
  erase (tracked_replace old new t).1 = str_replace old new (erase t).
Proof.
  unfold tracked_replace, str_replace. destruct (Str.nonempty old).
  - apply erase_tracked_from.
  - apply erase_tracked_empty.
Qed.

Lemma erase_tracked_foldl (M : overrides_t) (t : marked) (f : bool) :
  erase (foldl (λ acc kv, let r := tracked_replace kv.1 kv.2 acc.1 in
                          (r.1, acc.2 || r.2)) (t, f) M).1
  = render_contents M (erase t).
Proof.
  revert t f. induction M as [|[k v] M IH]; intros t f; [done|].
  cbn [foldl]. rewrite IH. cbn [fst snd].
  by rewrite erase_tracked_replace.
Qed.

Lemma erase_tracked_render (M : overrides_t) (T : string) :
  erase (tracked_render M T).1 = render_contents M T.
Proof.
  unfold tracked_render. by rewrite erase_tracked_foldl, erase_mark.
Qed.

(** ** When no inserted value is replaced again *)

Lemma marks_in_mark_true (P : ascii → Prop) (v : string) :
  (∀ c, Str.has_char c v = true → P c) → marks_in P (mark true v).
Proof.
  induction v as [|d v IH]; intros H; [constructor|].
  constructor.
  - intros _. apply H. simpl. by rewrite bool_decide_eq_true_2.
  - apply IH. intros c Hc. apply H. simpl. rewrite Hc. apply orb_true_r.
Qed.

Lemma marks_in_weaken (P Q : ascii → Prop) (t : marked) :
  (∀ c, P c → Q c) → marks_in P t → marks_in Q t.
Proof.
  intros HPQ Ht. eapply Forall_impl; [exact Ht|]. intros cb H Hb. auto.
Qed.

Lemma marks_in_tracked_from (P : ascii → Prop) (old new : string) (n : nat)
    (t : marked) :
  (∀ c, Str.has_char c new = true → P c) →
  marks_in P t → marks_in P (tracked_from old new n t).1.
Proof.
  intros Hnew. revert n. induction t as [|cb t IH]; intros n Ht; [done|].
  apply Forall_cons in Ht as [Hcb Ht].
  destruct n as [|n]; cbn [tracked_from]; [|by apply IH].
  destruct (String.prefix old (erase (cb :: t))); cbn [fst].
  - apply Forall_app. split; [by apply marks_in_mark_true|by apply IH].
  - constructor; [done|by apply IH].
Qed.

Lemma marks_in_tracked_empty (P : ascii → Prop) (new : string) (t : marked) :
  (∀ c, Str.has_char c new = true → P c) →
  marks_in P t → marks_in P (tracked_empty new t).
Proof.
  intros Hnew. induction t as [|cb t IH]; intros Ht; simpl.
  - rewrite app_nil_r. by apply marks_in_mark_true.
  - apply Forall_cons in Ht as [Hcb Ht].
    apply Forall_app. split; [by apply marks_in_mark_true|].
    constructor; [done|by apply IH].
Qed.

Lemma marks_in_tracked_replace (P : ascii → Prop) (old new : string)
    (t : marked) :
  (∀ c, Str.has_char c new = true → P c) →
  marks_in P t → marks_in P (tracked_replace old new t).1.
Proof.
  intros Hnew Ht. unfold tracked_replace. destruct (Str.nonempty old).
  - by apply marks_in_tracked_from.
  - by apply marks_in_tracked_empty.
Qed.

(** The characters of a matched occurrence are characters of the key. *)
Lemma prefix_erase_take (k : string) (t : marked) :
  String.prefix k (erase t) = true →
  Forall (λ cb, Str.has_char cb.1 k = true) (take (String.length k) t).
Proof.
  revert t. induction k as [|c k IH]; intros t H; [constructor|].
  destruct t as [|cb t]; [done|]. cbn [erase] in H.
  rewrite StrFacts.prefix_cons in H. apply andb_true_iff in H as [Hc H].
  apply bool_decide_eq_true in Hc as ->. cbn [String.length take].
  constructor.
  - simpl. by rewrite bool_decide_eq_true_2.
  - eapply Forall_impl; [by apply IH|]. intros cb' Hcb'. simpl in *.
    rewrite Hcb'. apply orb_true_r.
Qed.

Lemma tracked_from_no_hit (P : ascii → Prop) (old new : string) (n : nat)
    (t : marked) :
  (∀ c, Str.has_char c old = true → ¬ P c) →
  marks_in P t → (tracked_from old new n t).2 = false.
Proof.
  intros Hold. revert n. induction t as [|cb t IH]; intros n Ht; [done|].
  pose proof Ht as Ht'. apply Forall_cons in Ht as [Hcb Ht].
  destruct n as [|n]; cbn [tracked_from]; [|by apply IH].
  destruct (String.prefix old (erase (cb :: t))) eqn:Hp; cbn [snd];
    [|by apply IH].
  rewrite (IH _ Ht), orb_false_r.
  apply not_true_iff_false. intros Hex. apply existsb_exists in Hex.
  destruct Hex as (cb' & Hin & Hmark).
  pose proof (prefix_erase_take _ _ Hp) as Hk.
  rewrite Forall_forall in Hk. apply list_elem_of_In in Hin.
  apply (Hold cb'.1); [by apply Hk|].
  unfold marks_in in Ht'. rewrite Forall_forall in Ht'.
  apply Ht'; [|done]. by eapply subseteq_take.
Qed.

Lemma tracked_replace_no_hit (P : ascii → Prop) (old new : string)
    (t : marked) :
  (∀ c, Str.has_char c old = true → ¬ P c) →
  marks_in P t → (tracked_replace old new t).2 = false.
Proof.
  intros Hold Ht. unfold tracked_replace. destruct (Str.nonempty old); [|done].
  by eapply tracked_from_no_hit.
Qed.

Lemma no_common_char_spec (v k : string) (c : ascii) :
  Str.no_common_char v k = true → Str.has_char c v = true →
  Str.has_char c k = false.
Proof.
  induction v as [|d v IH]; [done|]. simpl.
  intros [Hd Hv]%andb_true_iff [Hc|Hc]%orb_true_iff.
  - apply bool_decide_eq_true in Hc as ->. by apply negb_true_iff.
  - auto.
Qed.

Lemma tracked_foldl_no_hit (M : overrides_t) (P : ascii → Prop) (t : marked)
    (f : bool) :
  marks_in P t →
  (∀ k c, k ∈ keys M → Str.has_char c k = true → ¬ P c) →
  values_apart M = true →
  (foldl (λ acc kv, let r := tracked_replace kv.1 kv.2 acc.1 in
                    (r.1, acc.2 || r.2)) (t, f) M).2 = f.
Proof.
  revert P t f. induction M as [|[k v] M IH]; intros P t f Ht Hkeys Hval;
    [done|].
  cbn [foldl fst snd]. cbn [values_apart] in Hval.
  apply andb_true_iff in Hval as [Hv Hval]. rewrite forallb_forall in Hv.
  rewrite (tracked_replace_no_hit P k v t), orb_false_r; [|
    intros c Hc; apply (Hkeys k c); [by left|done] | done].
  apply (IH (λ c, P c ∨ Str.has_char c v = true)); [| |done].
  - apply marks_in_tracked_replace; [by right|].
    eapply marks_in_weaken; [|done]. by left.
  - intros k' c Hk' Hc [HP|Hcv].
    + apply (Hkeys k' c); [by right|done..].
    + apply list_elem_of_In, Hv in Hk'.
      by rewrite (no_common_char_spec _ _ _ Hk' Hcv) in Hc.
Qed.

Lemma marks_in_mark_false (P : ascii → Prop) (s : string) :
  marks_in P (mark false s).
Proof. induction s as [|c s IH]; constructor; done. Qed.

(** C1 (as amended). Rendering replaces the tokens one after the other,
    in the order of the override map, each [str.replace] scanning the
    whole text the one before it produced. For every template and every
    override map in which no value has a character in common with a key
    that comes after it in the map, no character inserted for one token
    is afterwards replaced for another token's key; and the text the
    instrumented loop returns is the one [gen_driver] writes. *)
Theorem render_never_rescans (M : overrides_t) (T : string) :
  values_apart M = true →
  rescanned M T = false
  ∧ erase (tracked_render M T).1 = render_contents M T.
Proof.
  intros Hval. split; [|apply erase_tracked_render].
  unfold rescanned, tracked_render.
  apply (tracked_foldl_no_hit M (λ _, False)).
  - apply marks_in_mark_false.
  - intros k c _ _ H. exact H.
  - exact Hval.
Qed.

(** The maps [main] builds are such maps, whatever the bootstrap servers
    given on the command line. *)
Lemma main_overrides_apart (args : Args) :
  values_apart (kafka_driver_overrides args) = true
  ∧ values_apart (hstream_driver_overrides args) = true.
Proof. split; reflexivity. Qed.

Lemma render_never_rescans_spec_example :
  values_apart spec_overrides = true
  ∧ rescanned spec_overrides spec_template = false
  ∧ erase (tracked_render spec_overrides spec_template).1
    = render_contents spec_overrides spec_template.
Proof.
  split; [vm_compute; reflexivity|].
  apply render_never_rescans. vm_compute; reflexivity.
Defined.

(** C1 as stated fails: with the value of [__NAME__] being the key
    [__BOOTSTRAP_SERVERS__], the text inserted for the first token is
    replaced again for the second one, and the rendered text is not the
    one a single pass gives. *)
Lemma render_rescans_nested :
  rescanned nested_overrides "__NAME__" = true
  ∧ render_contents nested_overrides "__NAME__" = "localhost:9092"
  ∧ simultaneous_replace nested_overrides "__NAME__" = "__BOOTSTRAP_SERVERS__".
Proof. repeat split; vm_compute; reflexivity. Qed.

(** ** The file system *)

Lemma bind_run {A B} (m : M A) (f : A → M B) (w : world) :
  (m ≫= f) w
  = match m w with
    | (Ok a, w') => f a w'
    | (Raise e, w') => (Raise e, w')
    end.
Proof. reflexivity. Qed.

Lemma child_name_spec (dir p : path) (name : string) :
  child_name dir p = Some name ↔ p = dir ++ [name].
Proof.
  revert p. induction dir as [|d dir IH]; intros p.
  - destruct p as [|c [|c' p]]; simpl; split; intros H; by simplify_eq.
  - destruct p as [|c p]; simpl; [split; intros H; by simplify_eq|].
    case_decide as Hdc.
    + subst. rewrite IH. split; intros H; by simplify_eq.
    + split; intros H; by simplify_eq.
Qed.

Lemma dir_entries_spec (fs : gmap path node) (dir : path) (e : DirEntry) :
  e ∈ dir_entries fs dir ↔
  de_path e = dir ++ [de_name e] ∧ fs !! de_path e = Some (de_node e).
Proof.
  unfold dir_entries. rewrite list_elem_of_omap. split.
  - intros ([p nd] & Hin & He). apply elem_of_map_to_list in Hin.
    simpl in He. destruct (child_name dir p) as [name|] eqn:Hc; [|done].
    simpl in He. injection He as <-. simpl.
    by apply child_name_spec in Hc.
  - intros [Hp Hfs]. exists (de_path e, de_node e). split.
    + by apply elem_of_map_to_list.
    + simpl. apply child_name_spec in Hp. rewrite Hp. simpl.
      by destruct e.
Qed.

Lemma os_scandir_run (dir : path) (w : world) :
  os_scandir dir w
  = match w_fs w !! dir with
    | Some Dir => (Ok (dir_entries (w_fs w) dir), w)
    | Some (File _) => (Raise (NotADirectoryError dir), w)
    | None => (Raise (FileNotFoundError dir), w)
    end.
Proof.
  unfold os_scandir. rewrite bind_run. simpl.
  by destruct (w_fs w !! dir) as [[]|].
Qed.

Lemma ancestors_spec (p a : path) :
  a ∈ ancestors p → a `prefix_of` p ∧ length a < length p ∧ a ≠ [].
Proof.
  unfold ancestors. intros (i & -> & Hi)%list_elem_of_fmap.
  apply elem_of_seq in Hi. split; [apply prefix_take|].
  rewrite length_take. split; [lia|].
  destruct p; simpl in *; [lia|]. destruct i; [lia|done].
Qed.

Lemma not_ancestor_or_self (p q : path) :
  ¬ q `prefix_of` p → q ∉ ancestors p ++ [p].
Proof.
  intros Hq [Hin| ->%list_elem_of_singleton]%elem_of_app.
  - by apply ancestors_spec in Hin as [? _].
  - by apply Hq.
Qed.

Lemma lookup_foldr_mkdir (l : list path) (fs : gmap path node) (q : path) :
  foldr (λ q, <[q := Dir]>) fs l !! q
  = if decide (q ∈ l) then Some Dir else fs !! q.
Proof.
  induction l as [|x l IH]; cbn [foldr].
  - destruct (decide (q ∈ [])) as [Hin|Hin]; [by apply elem_of_nil in Hin|done].
  - destruct (decide (q ∈ x :: l)) as [Hin'|Hin'].
    + destruct (decide (x = q)) as [->|Hne]; [by rewrite lookup_insert_eq|].
      rewrite lookup_insert_ne, IH by done.
      apply elem_of_cons in Hin' as [?|Hin']; [by simplify_eq|].
      by rewrite decide_True.
    + rewrite lookup_insert_ne, IH.
      * rewrite decide_False; [done|]. intros ?. apply Hin'. by right.
      * intros ->. apply Hin'. by left.
Qed.

(** What [mkdir_p] does: nothing but an exception when a file is in the
    way, else the directory and its missing ancestors are there. *)
Lemma mkdir_p_run (p : path) (w : world) :
  (∃ e, mkdir_p p w = (Raise e, w)
        ∧ ∃ a, is_File (w_fs w) a = true ∧ a ∈ ancestors p ++ [p])
  ∨ (mkdir_p p w
     = (Ok tt, World (foldr (λ q, <[q := Dir]>) (w_fs w) (ancestors p ++ [p]))
                     (w_trace w))
     ∧ ∀ a, a ∈ ancestors p ++ [p] → is_File (w_fs w) a = false).
Proof.
  unfold mkdir_p. rewrite bind_run. simpl.
  destruct (find (is_File (w_fs w)) (ancestors p)) as [a|] eqn:Hf.
  - left. eexists. split; [done|]. apply find_some in Hf as [Hin Ha].
    exists a. split; [done|]. apply elem_of_app. left.
    by apply list_elem_of_In.
  - destruct (is_File (w_fs w) p) eqn:Hp.
    + left. eexists. split; [done|]. exists p. split; [done|].
      apply elem_of_app. right. by apply list_elem_of_singleton.
    + right. split; [done|].
      intros a [Hin| ->%list_elem_of_singleton]%elem_of_app; [|done].
      apply list_elem_of_In in Hin.
      by apply (find_none _ _ Hf) in Hin.
Qed.

Lemma rmtree_lookup_under (d p : path) (fs : gmap path node) :
  d `prefix_of` p → rmtree d fs !! p = None.
Proof.
  intros Hp. unfold rmtree. apply map_lookup_filter_None. right.
  intros nd _ Hn. by apply Hn.
Qed.

Lemma rmtree_lookup_outside (d p : path) (fs : gmap path node) :
  ¬ d `prefix_of` p → rmtree d fs !! p = fs !! p.
Proof.
  intros Hp. unfold rmtree. destruct (fs !! p) as [nd|] eqn:E.
  - by apply map_lookup_filter_Some.
  - apply map_lookup_filter_None. by left.
Qed.

Lemma parent_snoc (dir : path) (name : string) : parent (dir ++ [name]) = dir.
Proof.
  unfold parent. rewrite length_app. simpl.
  replace (length dir + 1 - 1) with (length dir) by lia.
  by rewrite take_app_length.
Qed.

(** ** Rendering one template *)

Lemma open_read_run (p : path) (w : world) :
  open_read p w
  = match w_fs w !! p with
    | Some (File contents) => (Ok contents, w)
    | Some Dir => (Raise (IsADirectoryError p), w)
    | None => (Raise (FileNotFoundError p), w)
    end.
Proof.
  unfold open_read. rewrite bind_run. simpl.
  by destruct (w_fs w !! p) as [[]|].
Qed.

Lemma open_write_ok (p : path) (contents : string) (w : world) :
  w_fs w !! p ≠ Some Dir → dir_exists (w_fs w) (parent p) = true →
  open_write p contents w
  = (Ok tt, World (<[p := File contents]> (w_fs w))
                  (w_trace w ++ [EvWrite p contents])).
Proof.
  intros Hp Hpar. unfold open_write. rewrite bind_run. simpl.
  destruct (w_fs w !! p) as [[]|] eqn:E; try done; by rewrite Hpar.
Qed.

Lemma open_write_Ok_inv (p : path) (contents : string) (w w' : world) (u : unit) :
  open_write p contents w = (Ok u, w') →
  w' = World (<[p := File contents]> (w_fs w))
             (w_trace w ++ [EvWrite p contents]).
Proof.
  unfold open_write. rewrite bind_run. simpl.
  destruct (w_fs w !! p) as [[]|]; try done;
    destruct (dir_exists (w_fs w) (parent p)); try done;
    by intros [= <-].
Qed.

Lemma gen_driver_step_Ok_inv (driver_dir : path) (overrides : overrides_t)
    (t : DirEntry) (T : string) (w w' : world) (p : path) :
  w_fs w !! de_path t = Some (File T) →
  gen_driver_step driver_dir overrides t w = (Ok p, w') →
  p = driver_dir ++ [de_name t]
  ∧ w' = World (<[p := File (render_contents overrides T)]> (w_fs w))
               (w_trace w ++ [EvWrite p (render_contents overrides T)]).
Proof.
  intros HT. unfold gen_driver_step.
  rewrite bind_run, open_read_run, HT, bind_run.
  destruct (open_write _ _ w) as [[u|e] w1] eqn:Hw; [|done].
  intros [= <- <-]. split; [done|]. by apply open_write_Ok_inv in Hw.
Qed.

Lemma gen_driver_step_ok (driver_dir : path) (overrides : overrides_t)
    (t : DirEntry) (T : string) (w : world) :
  w_fs w !! de_path t = Some (File T) →
  w_fs w !! (driver_dir ++ [de_name t]) ≠ Some Dir →
  dir_exists (w_fs w) driver_dir = true →
  let p := driver_dir ++ [de_name t] in
  gen_driver_step driver_dir overrides t w
  = (Ok p, World (<[p := File (render_contents overrides T)]> (w_fs w))
                 (w_trace w ++ [EvWrite p (render_contents overrides T)])).
Proof.
  intros HT Hp Hd p. unfold gen_driver_step.
  rewrite bind_run, open_read_run, HT, bind_run.
  rewrite open_write_ok; [done|done|by rewrite parent_snoc].
Qed.

(** C9. Rendering is deterministic: two renderings of the same template
    contents with the same override map, in whatever worlds and to
    whatever directories, write byte-identical contents. *)
Theorem rendering_deterministic (overrides : overrides_t) (T : string)
    (dir1 dir2 : path) (t1 t2 : DirEntry) (w1 w2 w1' w2' : world)
    (p1 p2 : path) :
  w_fs w1 !! de_path t1 = Some (File T) →
  w_fs w2 !! de_path t2 = Some (File T) →
  gen_driver_step dir1 overrides t1 w1 = (Ok p1, w1') →
  gen_driver_step dir2 overrides t2 w2 = (Ok p2, w2') →
  ∃ contents,
    w_fs w1' !! p1 = Some (File contents)
    ∧ w_fs w2' !! p2 = Some (File contents)
    ∧ contents = render_contents overrides T.
Proof.
  intros H1 H2 Hs1 Hs2.
  apply (gen_driver_step_Ok_inv _ _ _ _ _ _ _ H1) in Hs1 as [_ ->].
  apply (gen_driver_step_Ok_inv _ _ _ _ _ _ _ H2) in Hs2 as [_ ->].
  exists (render_contents overrides T). simpl.
  by rewrite !lookup_insert_eq.
Qed.

(** ** The name filters *)

(** C10. A name filter given as an empty list of names is treated as
    absent: all the templates, respectively all the workloads, of the
    scenario are selected, as they are without the option. *)
Theorem empty_filter_selects_all (entries : list DirEntry) :
  select_by_name (Some []) entries = entries
  ∧ select_by_name (Some []) entries = select_by_name None entries.
Proof. split; reflexivity. Qed.

Lemma select_by_name_filter (n : string) (ns : list string)
    (entries : list DirEntry) :
  select_by_name (Some (n :: ns)) entries
  = List.filter (λ d, bool_decide (de_name d ∈ n :: ns)) entries.
Proof. reflexivity. Qed.

(** ** [setup_drivers] *)

Lemma written_app (tr1 tr2 : list event) :
  written (tr1 ++ tr2) = written tr1 ++ written tr2.
Proof. unfold written. apply omap_app. Qed.

Lemma gen_driver_ok (driver_dir : path) (overrides : overrides_t)
    (ts : list DirEntry) (w : world) :
  dir_exists (w_fs w) driver_dir = true →
  (∀ t, t ∈ ts → is_File (w_fs w) (de_path t) = true) →
  (∀ t, t ∈ ts → w_fs w !! (driver_dir ++ [de_name t]) ≠ Some Dir) →
  ∃ w' tr,
    gen_driver driver_dir overrides ts w
    = (Ok ((λ t, driver_dir ++ [de_name t]) <$> ts), w')
    ∧ w_trace w' = w_trace w ++ tr
    ∧ written tr = (λ t, driver_dir ++ [de_name t]) <$> ts
    ∧ Forall is_write tr
    ∧ (∀ p, w_fs w' !! p = Some Dir ↔ w_fs w !! p = Some Dir).
Proof.
  revert w. induction ts as [|t ts IH]; intros w Hd Hread Hwrite.
  - exists w, []. by rewrite app_nil_r.
  - assert (t ∈ t :: ts) as Hin by by left.
    pose proof (Hread t Hin) as Ht. unfold is_File in Ht.
    destruct (w_fs w !! de_path t) as [[T|]|] eqn:HT; try done.
    cbn [gen_driver]. rewrite bind_run.
    rewrite (gen_driver_step_ok _ _ _ T) by auto.
    set (p := driver_dir ++ [de_name t]).
    set (w1 := World _ _).
    assert (∀ q, w_fs w1 !! q = Some Dir ↔ w_fs w !! q = Some Dir) as Hdirs.
    { intros q. simpl. destruct (decide (p = q)) as [<-|Hne].
      - rewrite lookup_insert_eq. split; [done|]. intros Hq.
        by apply (Hwrite t Hin) in Hq.
      - by rewrite lookup_insert_ne. }
    destruct (IH w1) as (w' & tr & Hrun & Htr & Hwr & Hall & Hdirs').
    + unfold dir_exists in *. destruct driver_dir; [done|].
      destruct (w_fs w !! (s :: driver_dir)) as [[]|] eqn:E; try done.
      by rewrite (proj2 (Hdirs _) E).
    + intros t' Ht'. unfold is_File. simpl.
      destruct (decide (p = de_path t')) as [<-|Hne].
      * by rewrite lookup_insert_eq.
      * rewrite lookup_insert_ne by done. apply Hread. by right.
    + intros t' Ht' Hq. apply Hdirs in Hq. revert Hq. apply Hwrite. by right.
    + exists w', (EvWrite p (render_contents overrides T) :: tr).
      rewrite bind_run, Hrun. split; [done|]. split.
      { rewrite Htr. simpl. by rewrite <- app_assoc. }
      split.
      { change (written (EvWrite p (render_contents overrides T) :: tr))
          with (p :: written tr). by rewrite Hwr. }
      split; [by constructor|].
      intros q. by rewrite Hdirs'.
Qed.

Lemma setup_drivers_ok (ts : list DirEntry) (scenario : string)
    (gen_dir : path) (overrides : overrides_t) (w : world) :
  let driver_dir := gen_dir ++ [scenario; "drivers"] in
  (∀ a, a ∈ ancestors driver_dir ++ [driver_dir] → is_File (w_fs w) a = false) →
  (∀ t, t ∈ ts → is_File (w_fs w) (de_path t) = true) →
  (∀ t, t ∈ ts → w_fs w !! (driver_dir ++ [de_name t]) ≠ Some Dir) →
  ∃ w' tr,
    setup_drivers ts scenario gen_dir overrides w
    = (Ok ((λ t, driver_dir ++ [de_name t]) <$> ts), w')
    ∧ w_trace w' = w_trace w ++ tr
    ∧ written tr = (λ t, driver_dir ++ [de_name t]) <$> ts
    ∧ Forall is_write tr.
Proof.
  intros driver_dir Hanc Hread Hwrite. unfold setup_drivers.
  fold driver_dir. rewrite bind_run.
  destruct (mkdir_p_run driver_dir w) as [(e & _ & a & Ha & Hin)|[-> _]].
  { by rewrite (Hanc a Hin) in Ha. }
  set (w1 := World _ _).
  assert (∀ q, q ∉ ancestors driver_dir ++ [driver_dir] →
               w_fs w1 !! q = w_fs w !! q) as Hsame.
  { intros q Hq. simpl. rewrite lookup_foldr_mkdir. by rewrite decide_False. }
  destruct (gen_driver_ok driver_dir overrides ts w1)
    as (w' & tr & Hrun & Htr & Hwr & Hall & _).
  - unfold dir_exists, driver_dir. destruct gen_dir; simpl.
    + rewrite lookup_insert_ne by done. by rewrite lookup_insert_eq.
    + fold driver_dir. rewrite lookup_foldr_mkdir.
      rewrite decide_True; [done|]. apply elem_of_app. right.
      by apply list_elem_of_singleton.
  - intros t Ht. unfold is_File. rewrite Hsame; [by apply Hread|].
    intros Hin. apply Hanc in Hin. by rewrite (Hread t Ht) in Hin.
  - intros t Ht. rewrite Hsame; [by apply Hwrite|].
    intros [Hin| Heq%list_elem_of_singleton]%elem_of_app.
    + apply ancestors_spec in Hin as (_ & Hlen & _).
      rewrite length_app in Hlen. simpl in Hlen. lia.
    + apply (f_equal length) in Heq. rewrite length_app in Heq.
      simpl in Heq. lia.
  - exists w', tr. by rewrite Hrun.
Qed.

Lemma get_driver_tmpls_run (env : Env) (s : string) (w : world) :
  w_fs w !! (SCENARIO_DIR env ++ [s; "driver-tmpls"]) = Some Dir →
  get_driver_tmpls env s w
  = (Ok (List.filter is_file
           (dir_entries (w_fs w) (SCENARIO_DIR env ++ [s; "driver-tmpls"]))),
     w).
Proof.
  intros Hd. unfold get_driver_tmpls. rewrite bind_run, os_scandir_run.
  rewrite <- app_assoc. simpl. by rewrite Hd.
Qed.

Lemma get_workloads_run (env : Env) (s : string) (w : world) :
  w_fs w !! (SCENARIO_DIR env ++ [s; "workloads"]) = Some Dir →
  get_workloads env s w
  = (Ok (List.filter is_file
           (dir_entries (w_fs w) (SCENARIO_DIR env ++ [s; "workloads"]))),
     w).
Proof.
  intros Hd. unfold get_workloads. rewrite bind_run, os_scandir_run.
  rewrite <- app_assoc. simpl. by rewrite Hd.
Qed.

(** The files of a directory, as [os.scandir] and [is_file] give them. *)
Lemma file_entries_spec (fs : gmap path node) (dir : path) (e : DirEntry) :
  e ∈ List.filter is_file (dir_entries fs dir) ↔
  ∃ T, e = {| de_name := de_name e; de_path := dir ++ [de_name e];
              de_node := File T |}
       ∧ fs !! (dir ++ [de_name e]) = Some (File T).
Proof.
  rewrite list_elem_of_In, filter_In, <- list_elem_of_In, dir_entries_spec.
  unfold is_file. destruct e as [name p nd]. simpl. split.
  - intros [[-> Hfs] Hf]. destruct nd as [T|]; [|done]. by exists T.
  - intros (T & [= -> ->] & Hfs). done.
Qed.

(** C7. For every scenario and every non-empty driver-name filter [F],
    the rendered driver files are exactly the templates of the scenario
    whose file name is a member of [F], each written under its own name;
    a name of [F] that matches no template gives no error and no file.
    (The target directory is taken free of nodes of the wrong kind: no
    file on the way to it and no directory in the place of a rendered
    file.) *)
Theorem driver_filter_renders_exactly (env : Env) (s : string)
    (F : list string) (gen_dir : path) (overrides : overrides_t) (w : world) :
  let tmpl_dir := SCENARIO_DIR env ++ [s; "driver-tmpls"] in
  let driver_dir := gen_dir ++ [s; "drivers"] in
  F ≠ [] →
  w_fs w !! tmpl_dir = Some Dir →
  (∀ a, a ∈ ancestors driver_dir ++ [driver_dir] → is_File (w_fs w) a = false) →
  (∀ name, w_fs w !! (driver_dir ++ [name]) ≠ Some Dir) →
  ∃ tmpls rendered w' tr,
    get_driver_tmpls env s w = (Ok tmpls, w)
    ∧ setup_drivers (select_by_name (Some F) tmpls) s gen_dir overrides w
      = (Ok rendered, w')
    ∧ w_trace w' = w_trace w ++ tr
    ∧ written tr = rendered
    ∧ ∀ p, p ∈ rendered ↔
           ∃ name T, name ∈ F
                     ∧ w_fs w !! (tmpl_dir ++ [name]) = Some (File T)
                     ∧ p = driver_dir ++ [name].
Proof.
  intros tmpl_dir driver_dir HF Hd Hanc Hfree.
  destruct F as [|n ns]; [done|].
  set (tmpls := List.filter is_file (dir_entries (w_fs w) tmpl_dir)).
  set (sel := select_by_name (Some (n :: ns)) tmpls).
  assert (∀ t, t ∈ sel ↔ t ∈ tmpls ∧ de_name t ∈ n :: ns) as Hsel.
  { intros t. unfold sel. rewrite select_by_name_filter.
    rewrite list_elem_of_In, filter_In, <- list_elem_of_In.
    by rewrite bool_decide_eq_true. }
  destruct (setup_drivers_ok sel s gen_dir overrides w)
    as (w' & tr & Hrun & Htr & Hwr & _).
  - done.
  - intros t [Ht _]%Hsel. apply file_entries_spec in Ht as (T & Het & Hfs).
    unfold is_File. rewrite Het. simpl. by rewrite Hfs.
  - intros t _. apply Hfree.
  - exists tmpls, ((λ t, driver_dir ++ [de_name t]) <$> sel), w', tr.
    split; [by apply get_driver_tmpls_run|]. do 3 (split; [done|]).
    intros p. rewrite list_elem_of_fmap. split.
    + intros (t & -> & [Ht HtF]%Hsel).
      apply file_entries_spec in Ht as (T & _ & Hfs). by exists (de_name t), T.
    + intros (name & T & HnF & Hfs & ->).
      exists {| de_name := name; de_path := tmpl_dir ++ [name];
                de_node := File T |}.
      split; [done|]. apply Hsel. split; [|done].
      apply file_entries_spec. by exists T.
Qed.

(** The filter names [kafka.yaml] and a template that does not exist: one
    file is rendered, for [kafka.yaml]. *)
Lemma driver_filter_example :
  ["kafka.yaml"; "no-such.yaml"] ≠ []
  ∧ ∃ tmpls rendered w' tr,
      get_driver_tmpls (ex_env 0) "s1" (World ex_fs [])
      = (Ok tmpls, World ex_fs [])
      ∧ setup_drivers
          (select_by_name (Some ["kafka.yaml"; "no-such.yaml"]) tmpls)
          "s1" ["tmp"; "d"; "kafka"] spec_overrides (World ex_fs [])
        = (Ok rendered, w')
      ∧ w_trace w' = [] ++ tr
      ∧ written tr = rendered
      ∧ ∀ p, p ∈ rendered ↔
             ∃ name T,
               name ∈ ["kafka.yaml"; "no-such.yaml"]
               ∧ ex_fs !! (["p"; "scenarios"; "s1"; "driver-tmpls"] ++ [name])
                 = Some (File T)
               ∧ p = ["tmp"; "d"; "kafka"; "s1"; "drivers"] ++ [name].
Proof.
  split; [done|].
  apply (driver_filter_renders_exactly (ex_env 0) "s1"
           ["kafka.yaml"; "no-such.yaml"] ["tmp"; "d"; "kafka"]
           spec_overrides (World ex_fs [])).
  - done.
  - vm_compute. reflexivity.
  - intros a Ha. vm_compute in Ha.
    repeat (apply elem_of_cons in Ha as [->|Ha]; [vm_compute; reflexivity|]).
    by apply elem_of_nil in Ha.
  - intros name. simpl.
    destruct (ex_fs !! _) as [nd|] eqn:E; [|done].
    exfalso. apply elem_of_map_to_list in E. vm_compute in E.
    repeat (apply elem_of_cons in E as [E'|E]; [by inversion E'|]).
    by apply elem_of_nil in E.
Defined.

Example driver_filter_example_run :
  (setup_drivers
     (select_by_name (Some ["kafka.yaml"; "no-such.yaml"])
        (List.filter is_file
           (dir_entries ex_fs ["p"; "scenarios"; "s1"; "driver-tmpls"])))
     "s1" ["tmp"; "d"; "kafka"] spec_overrides (World ex_fs [])).1
  = Ok [["tmp"; "d"; "kafka"; "s1"; "drivers"; "kafka.yaml"]].
Proof. vm_compute. reflexivity. Qed.

(** Two renderings of the template and the map of the specification. *)
Lemma rendering_deterministic_example :
  ∃ contents,
    w_fs (gen_driver_step ["tmp"] spec_overrides
            {| de_name := "t"; de_path := ["a"]; de_node := File spec_template |}
            (World {[ ["a"] := File spec_template; ["tmp"] := Dir ]} [])).2 !! ["tmp"; "t"]
    = Some (File contents)
    ∧ w_fs (gen_driver_step ["out"] spec_overrides
              {| de_name := "u"; de_path := ["b"]; de_node := File spec_template |}
              (World {[ ["b"] := File spec_template; ["out"] := Dir ]} [])).2
        !! ["out"; "u"]
      = Some (File contents)
    ∧ contents = render_contents spec_overrides spec_template.
Proof.
  eapply (rendering_deterministic spec_overrides spec_template
            ["tmp"] ["out"]
            {| de_name := "t"; de_path := ["a"]; de_node := File spec_template |}
            {| de_name := "u"; de_path := ["b"]; de_node := File spec_template |}
            (World {[ ["a"] := File spec_template; ["tmp"] := Dir ]} [])
            (World {[ ["b"] := File spec_template; ["out"] := Dir ]} []));
    vm_compute; reflexivity.
Defined.

(** ** [get_results] *)

Lemma get_results_run (env : Env) (dir : path) (w : world) :
  has_magic dir = false →
  get_results env dir w
  = (Ok match w_fs w !! dir with
        | Some Dir =>
            de_path <$> List.filter (λ e, matches_json (de_name e))
                                    (dir_entries (w_fs w) dir)
        | _ => []
        end,
     World (w_fs w) (w_trace w ++ [EvGetResults dir])).
Proof.
  intros Hm. unfold get_results, glob_json. rewrite bind_run. simpl.
  rewrite bind_run. simpl. rewrite Hm.
  by destruct (w_fs w !! dir) as [[]|].
Qed.

(** C8 (as amended). For every output directory whose path holds no
    wildcard character, [get_results] returns exactly the entries directly
    inside it, regular files and directories alike, whose name ends in
    [.json] and does not begin with a dot; it never descends into a
    subdirectory, and it returns the empty list, not an exception, when
    there is no such entry or no such directory. *)
Theorem get_results_lists_json (env : Env) (dir : path) (w : world) :
  has_magic dir = false →
  ∃ results,
    get_results env dir w
    = (Ok results, World (w_fs w) (w_trace w ++ [EvGetResults dir]))
    ∧ ∀ p, p ∈ results ↔
           ∃ name nd, p = dir ++ [name]
                      ∧ w_fs w !! dir = Some Dir
                      ∧ w_fs w !! p = Some nd
                      ∧ is_hidden name = false
                      ∧ Str.endswith name ".json" = true.
Proof.
  intros Hm. eexists. split; [by apply get_results_run|].
  intros p. destruct (w_fs w !! dir) as [[T|]|] eqn:Hd.
  - split; [by intros ?%elem_of_nil|]. by intros (?&?&?&?&?).
  - rewrite list_elem_of_fmap. split.
    + intros (e & -> & He). apply list_elem_of_In, filter_In in He as [He Hj].
      apply list_elem_of_In, dir_entries_spec in He as [Hp Hfs].
      unfold matches_json in Hj. apply andb_true_iff in Hj as [Hh Hj].
      apply negb_true_iff in Hh. by exists (de_name e), (de_node e).
    + intros (name & nd & -> & _ & Hfs & Hh & Hj).
      exists {| de_name := name; de_path := dir ++ [name]; de_node := nd |}.
      split; [done|]. apply list_elem_of_In, filter_In. split.
      * by apply list_elem_of_In, dir_entries_spec.
      * unfold matches_json. simpl. by rewrite Hh, Hj.
  - split; [by intros ?%elem_of_nil|]. by intros (?&?&?&?&?).
Qed.

(** The example of the specification: of [a.json], [b.json], [c.txt] and
    a subdirectory with a [.json] file in it, the two result files are
    returned. *)
Lemma get_results_spec_example :
  has_magic ["results"; "s1"] = false
  ∧ ∃ results,
      get_results (ex_env 0) ["results"; "s1"] (World ex_results_fs [])
      = (Ok results,
         World ex_results_fs ([] ++ [EvGetResults ["results"; "s1"]]))
      ∧ ∀ p, p ∈ results ↔
             ∃ name nd, p = ["results"; "s1"] ++ [name]
                        ∧ ex_results_fs !! ["results"; "s1"] = Some Dir
                        ∧ ex_results_fs !! p = Some nd
                        ∧ is_hidden name = false
                        ∧ Str.endswith name ".json" = true.
Proof.
  split; [reflexivity|].
  apply (get_results_lists_json (ex_env 0) ["results"; "s1"]
           (World ex_results_fs [])).
  reflexivity.
Defined.

Example get_results_spec_example_run :
  (get_results (ex_env 0) ["results"; "s1"] (World ex_results_fs [])).1
  = Ok [["results"; "s1"; "b.json"]; ["results"; "s1"; "a.json"]]
  ∧ json_files ex_results_fs ["results"; "s1"]
    = [["results"; "s1"; "b.json"]; ["results"; "s1"; "a.json"]].
Proof. split; vm_compute; reflexivity. Qed.

(** C8 as stated fails: of the files [a.json] and [.b.json] and the
    subdirectory [d.json], [get_results] returns [a.json] and [d.json],
    whereas the files of the directory whose name ends in [.json] are
    [a.json] and [.b.json]. *)
Lemma get_results_not_the_json_files :
  has_magic ["results"; "s1"] = false
  ∧ (get_results (ex_env 0) ["results"; "s1"] (World ex_results_fs_odd [])).1
    = Ok [["results"; "s1"; "d.json"]; ["results"; "s1"; "a.json"]]
  ∧ json_files ex_results_fs_odd ["results"; "s1"]
    = [["results"; "s1"; ".b.json"]; ["results"; "s1"; "a.json"]]
  ∧ ex_results_fs_odd !! ["results"; "s1"; ".b.json"] = Some (File "{}")
  ∧ ex_results_fs_odd !! ["results"; "s1"; "d.json"] = Some Dir
  ∧ ¬ (∀ p, p ∈ [["results"; "s1"; "d.json"]; ["results"; "s1"; "a.json"]]
            ↔ p ∈ json_files ex_results_fs_odd ["results"; "s1"]).
Proof.
  do 5 (split; [vm_compute; reflexivity|]).
  intros H. specialize (H ["results"; "s1"; "d.json"]).
  assert (["results"; "s1"; "d.json"]
          ∈ json_files ex_results_fs_odd ["results"; "s1"]) as Hin
    by (apply H; by left).
  vm_compute in Hin.
  repeat (apply elem_of_cons in Hin as [Hin'|Hin]; [by inversion Hin'|]).
  by apply elem_of_nil in Hin.
Qed.

(** ** What the steps of an iteration leave in the trace *)

Lemma mkdir_p_trace (p : path) (w w' : world) (r : result unit) :
  mkdir_p p w = (r, w') → w_trace w' = w_trace w.
Proof.
  destruct (mkdir_p_run p w) as [(e & -> & _)|[-> _]]; by intros [= <- <-].
Qed.

Lemma os_scandir_world (dir : path) (w w' : world) (r : result (list DirEntry)) :
  os_scandir dir w = (r, w') → w' = w.
Proof.
  rewrite os_scandir_run. destruct (w_fs w !! dir) as [[]|]; by intros [= <- <-].
Qed.

Lemma get_driver_tmpls_world (env : Env) (s : string) (w w' : world)
    (r : result (list DirEntry)) :
  get_driver_tmpls env s w = (r, w') → w' = w.
Proof.
  unfold get_driver_tmpls. rewrite bind_run.
  destruct (os_scandir _ w) as [[es|e] w1] eqn:Hs;
    apply os_scandir_world in Hs as ->; by intros [= <- <-].
Qed.

Lemma get_workloads_world (env : Env) (s : string) (w w' : world)
    (r : result (list DirEntry)) :
  get_workloads env s w = (r, w') → w' = w.
Proof.
  unfold get_workloads. rewrite bind_run.
  destruct (os_scandir _ w) as [[es|e] w1] eqn:Hs;
    apply os_scandir_world in Hs as ->; by intros [= <- <-].
Qed.

Lemma open_write_trace (p : path) (contents : string) (w w' : world)
    (r : result unit) :
  open_write p contents w = (r, w') →
  w_trace w' = w_trace w
  ∨ w_trace w' = w_trace w ++ [EvWrite p contents].
Proof.
  unfold open_write. rewrite bind_run. simpl.
  destruct (w_fs w !! p) as [[]|];
    try destruct (dir_exists (w_fs w) (parent p));
    intros [= <- <-]; auto.
Qed.

Lemma gen_driver_step_trace (driver_dir : path) (overrides : overrides_t)
    (t : DirEntry) (w w' : world) (r : result path) :
  gen_driver_step driver_dir overrides t w = (r, w') →
  ∃ tr, w_trace w' = w_trace w ++ tr ∧ Forall (is_write_under driver_dir) tr.
Proof.
  unfold gen_driver_step. rewrite bind_run, open_read_run.
  destruct (w_fs w !! de_path t) as [[T|]|].
  - rewrite bind_run.
    destruct (open_write _ _ w) as [[u|e] w1] eqn:Hw; intros [= <- <-];
      apply open_write_trace in Hw as [->| ->].
    + exists []. by rewrite app_nil_r.
    + eexists. split; [done|]. constructor; [|done]. by apply prefix_app_r.
    + exists []. by rewrite app_nil_r.
    + eexists. split; [done|]. constructor; [|done]. by apply prefix_app_r.
  - intros [= <- <-]. exists []. by rewrite app_nil_r.
  - intros [= <- <-]. exists []. by rewrite app_nil_r.
Qed.

Lemma gen_driver_trace (driver_dir : path) (overrides : overrides_t)
    (ts : list DirEntry) (w w' : world) (r : result (list path)) :
  gen_driver driver_dir overrides ts w = (r, w') →
  ∃ tr, w_trace w' = w_trace w ++ tr ∧ Forall (is_write_under driver_dir) tr.
Proof.
  revert w r w'. induction ts as [|t ts IH]; intros w r w'.
  - intros [= <- <-]. exists []. by rewrite app_nil_r.
  - cbn [gen_driver]. rewrite bind_run.
    destruct (gen_driver_step _ _ t w) as [[p|e] w1] eqn:Hs;
      apply gen_driver_step_trace in Hs as (tr1 & Htr1 & Hall1).
    + rewrite bind_run.
      destruct (gen_driver _ _ ts w1) as [[ps|e] w2] eqn:Hg;
        apply IH in Hg as (tr2 & Htr2 & Hall2); intros [= <- <-];
        exists (tr1 ++ tr2); (split; [|by apply Forall_app]);
        by rewrite Htr2, Htr1, app_assoc.
    + intros [= <- <-]. by exists tr1.
Qed.

Lemma is_write_under_weaken (d d' : path) (tr : list event) :
  d `prefix_of` d' →
  Forall (is_write_under d') tr → Forall (is_write_under d) tr.
Proof.
  intros Hd Htr. eapply Forall_impl; [exact Htr|].
  intros [] H; try done. simpl in *. by etrans.
Qed.

Lemma setup_drivers_trace (ts : list DirEntry) (s : string) (gen_dir : path)
    (overrides : overrides_t) (w w' : world) (r : result (list path)) :
  setup_drivers ts s gen_dir overrides w = (r, w') →
  ∃ tr, w_trace w' = w_trace w ++ tr ∧ Forall (is_write_under gen_dir) tr.
Proof.
  unfold setup_drivers. rewrite bind_run.
  destruct (mkdir_p _ w) as [[u|e] w1] eqn:Hm;
    apply mkdir_p_trace in Hm.
  - intros (tr & Htr & Hall)%gen_driver_trace. exists tr.
    split; [by rewrite Htr, Hm|].
    eapply is_write_under_weaken; [|done]. by apply prefix_app_r.
  - intros [= <- <-]. exists []. by rewrite app_nil_r.
Qed.

Lemma subprocess_run_run (env : Env) (cmd : string) (w : world) :
  subprocess_run env cmd w
  = (if decide ((env_shell env cmd (w_fs w)).2 = 0%Z) then Ok tt
     else Raise (CalledProcessError (env_shell env cmd (w_fs w)).2 cmd),
     World (env_shell env cmd (w_fs w)).1
           (w_trace w ++ [EvRun cmd (env_shell env cmd (w_fs w)).2])).
Proof.
  unfold subprocess_run. rewrite !bind_run. simpl.
  by destruct (decide _).
Qed.

Lemma get_results_trace (env : Env) (dir : path) (w w' : world)
    (r : result (list path)) :
  get_results env dir w = (r, w') →
  (∃ results, r = Ok results)
  ∧ w_trace w' = w_trace w ++ [EvGetResults dir]
  ∧ w_fs w' = w_fs w.
Proof.
  unfold get_results, glob_json. rewrite bind_run. simpl.
  rewrite bind_run. simpl. destruct (has_magic dir).
  - intros [= <- <-]. eauto.
  - destruct (w_fs w !! dir) as [[]|]; intros [= <- <-]; eauto.
Qed.

(** ** The course of one iteration

    Whatever the file system and the command line: an iteration writes
    rendered drivers into the temporary directory, and then it either
    stops on an exception without the benchmark command having been run,
    or runs the command once; when the command fails the exception is the
    last thing that happens, and only when it succeeds are the results
    looked for. *)

Lemma scenario_body_shape (env : Env) (args : Args) (s : string) (d : path)
    (w w' : world) (r : result unit) :
  scenario_body env args s d w = (r, w') →
  ∃ writes,
    Forall (is_write_under d) writes
    ∧ ((∃ e, r = Raise e ∧ w_trace w' = w_trace w ++ writes)
       ∨ (∃ line cmd code,
            code ≠ 0%Z
            ∧ r = Raise (CalledProcessError code cmd)
            ∧ w_trace w' = w_trace w ++ writes ++ [EvPrint line; EvRun cmd code])
       ∨ (∃ line cmd prints,
            r = Ok tt
            ∧ Forall is_print prints
            ∧ w_trace w'
              = w_trace w ++ writes
                ++ [EvPrint line; EvRun cmd 0;
                    EvGetResults (a_result_dir args ++ [s])] ++ prints)).
Proof.
  unfold scenario_body. intros H.
  assert (∀ e w0, (Raise e, w0) = (r, w') → w_trace w0 = w_trace w →
            ∃ writes,
              Forall (is_write_under d) writes
              ∧ ((∃ e, r = Raise e ∧ w_trace w' = w_trace w ++ writes)
                 ∨ (∃ line cmd code,
                      code ≠ 0%Z
                      ∧ r = Raise (CalledProcessError code cmd)
                      ∧ w_trace w' = w_trace w ++ writes
                                     ++ [EvPrint line; EvRun cmd code])
                 ∨ (∃ line cmd prints,
                      r = Ok tt
                      ∧ Forall is_print prints
                      ∧ w_trace w'
                        = w_trace w ++ writes
                          ++ [EvPrint line; EvRun cmd 0;
                              EvGetResults (a_result_dir args ++ [s])]
                          ++ prints))) as Hstop0.
  { intros e w0 [= <- <-] Htr. exists []. split; [done|]. left.
    exists e. by rewrite app_nil_r. }
  (* Setup *)
  rewrite bind_run in H.
  destruct (mkdir_p (d ++ ["kafka"]) w) as [[u1|e] w1] eqn:H1;
    apply mkdir_p_trace in H1; [|by eapply Hstop0].
  rewrite bind_run in H.
  destruct (mkdir_p (d ++ ["hstream"]) w1) as [[u2|e] w2] eqn:H2;
    apply mkdir_p_trace in H2; [|eapply Hstop0; [done|congruence]].
  rewrite bind_run in H.
  destruct (mkdir_p (a_result_dir args ++ [s]) w2) as [[u3|e] w3] eqn:H3;
    apply mkdir_p_trace in H3; [|eapply Hstop0; [done|congruence]].
  (* Render *)
  rewrite bind_run in H.
  destruct (get_driver_tmpls env s w3) as [[tmpls|e] w4] eqn:H4;
    apply get_driver_tmpls_world in H4 as ->;
    [|eapply Hstop0; [done|congruence]].
  assert (w_trace w3 = w_trace w) as Htr3 by congruence.
  clear Hstop0 H1 H2 H3.
  rewrite bind_run in H.
  destruct (setup_drivers _ s (d ++ ["kafka"]) _ w3) as [[kafka_drivers|e] w5]
    eqn:H5; apply setup_drivers_trace in H5 as (tr5 & Htr5 & Hall5);
    apply (is_write_under_weaken d) in Hall5; try by apply prefix_app_r.
  2:{ injection H as <- <-. exists tr5. split; [done|]. left. exists e.
      split; [done|]. by rewrite Htr5, Htr3. }
  rewrite bind_run in H.
  destruct (setup_drivers _ s (d ++ ["hstream"]) _ w5)
    as [[hstream_drivers|e] w6]
    eqn:H6; apply setup_drivers_trace in H6 as (tr6 & Htr6 & Hall6);
    apply (is_write_under_weaken d) in Hall6; try by apply prefix_app_r.
  2:{ injection H as <- <-. exists (tr5 ++ tr6).
      split; [by apply Forall_app|]. left. exists e. split; [done|].
      by rewrite Htr6, Htr5, Htr3, app_assoc. }
  assert (w_trace w6 = w_trace w ++ (tr5 ++ tr6)) as Htr
    by (by rewrite Htr6, Htr5, Htr3, app_assoc).
  assert (Forall (is_write_under d) (tr5 ++ tr6)) as Hall
    by by apply Forall_app.
  clear Htr5 Htr6 Hall5 Hall6 Htr3. revert Htr Hall.
  generalize (tr5 ++ tr6). intros writes Htr Hall. exists writes.
  split; [done|].
  (* Execute *)
  rewrite bind_run in H.
  destruct (get_workloads env s w6) as [[workloads|e] w7] eqn:H7;
    apply get_workloads_world in H7 as ->.
  2:{ injection H as <- <-. left. by exists e. }
  rewrite bind_run in H. unfold lift at 1 in H.
  destruct (str_join "," _) as [cmd_drivers|e].
  2:{ injection H as <- <-. left. by exists e. }
  rewrite bind_run in H. unfold lift at 1 in H.
  destruct (str_join " " _) as [cmd_workloads|e].
  2:{ injection H as <- <-. left. by exists e. }
  rewrite bind_run in H. unfold loginfo, emit at 1 in H.
  rewrite bind_run, subprocess_run_run in H. cbn [w_fs w_trace] in H.
  set (cmd := "bin/benchmark -d " +:+ _) in H.
  destruct (decide ((env_shell env cmd (w_fs w6)).2 = 0%Z)) as [Hz|Hnz].
  2:{ injection H as <- <-. right. left. eexists _, cmd, _.
      split; [exact Hnz|]. split; [done|]. cbn [w_trace]. rewrite Htr.
      by rewrite <- !app_assoc. }
  (* Collect *)
  rewrite Hz in H. rewrite bind_run in H.
  destruct (get_results env _ _) as [[results|e] w8] eqn:H8;
    apply get_results_trace in H8 as ([results' Hr] & Htr8 & _);
    [|done].
  right. right. eexists _, cmd. cbn [w_trace] in Htr8.
  destruct results as [|res results].
  - injection H as <- <-. exists []. split; [done|]. split; [done|].
    rewrite Htr8, Htr. by rewrite <- !app_assoc.
  - unfold loginfo, emit in H. injection H as <- <-.
    eexists [_]. split; [done|]. split; [|
      cbn [w_trace]; rewrite Htr8, Htr; by rewrite <- !app_assoc].
    by repeat constructor.
Qed.

Lemma scenario_iteration_run (env : Env) (args : Args) (s : string) (w : world) :
  scenario_iteration env args s w
  = match mkdtemp env (w_fs w) with
    | Ok d =>
        let r := scenario_body env args s d
                   (World (<[d := Dir]> (w_fs w)) (w_trace w)) in
        (r.1, World (rmtree d (w_fs r.2)) (w_trace r.2))
    | Raise e => (Raise e, w)
    end.
Proof.
  unfold scenario_iteration, with_TemporaryDirectory.
  rewrite bind_run. simpl. rewrite bind_run. unfold lift at 1.
  by destruct (mkdtemp env (w_fs w)).
Qed.

Lemma for_each_app {A} (xs ys : list A) (f : A → M unit) (w : world) :
  for_each (xs ++ ys) f w
  = match for_each xs f w with
    | (Ok _, w1) => for_each ys f w1
    | (Raise e, w1) => (Raise e, w1)
    end.
Proof.
  revert w. induction xs as [|x xs IH]; intros w; [done|].
  cbn [app for_each]. rewrite !bind_run.
  destruct (f x w) as [[u|e] w1]; [apply IH|done].
Qed.

Lemma elem_of_written (tr : list event) (p : path) :
  p ∈ written tr ↔ ∃ contents, EvWrite p contents ∈ tr.
Proof.
  unfold written. rewrite list_elem_of_omap. split.
  - intros ([] & Hin & [= ->]). eauto.
  - intros [contents Hin]. by exists (EvWrite p contents).
Qed.

(** ** The workspace *)

(** C5. For every scenario iteration, however it ends, the temporary
    directory made for it and everything under it are gone from the file
    system when the iteration is over; every file the iteration wrote, the
    rendered drivers, was written under that directory and is gone with
    it. *)
Theorem workspace_removed (env : Env) (args : Args) (s : string) (w : world)
    (d : path) :
  mkdtemp env (w_fs w) = Ok d →
  let w' := (scenario_iteration env args s w).2 in
  (∀ p, d `prefix_of` p → w_fs w' !! p = None)
  ∧ ∃ tr, w_trace w' = w_trace w ++ tr
          ∧ ∀ p, p ∈ written tr → d `prefix_of` p ∧ w_fs w' !! p = None.
Proof.
  intros Hd. rewrite scenario_iteration_run, Hd. cbn zeta.
  destruct (scenario_body env args s d _) as [r w1] eqn:Hb. cbn [fst snd w_fs w_trace].
  assert (∀ p, d `prefix_of` p → rmtree d (w_fs w1) !! p = None) as Hgone
    by (intros p; apply rmtree_lookup_under).
  split; [done|].
  apply scenario_body_shape in Hb as (writes & Hall & Hshape).
  cbn [w_trace] in Hshape.
  assert (∃ rest, w_trace w1 = w_trace w ++ writes ++ rest
                  ∧ written rest = []) as (rest & -> & Hrest).
  { destruct Hshape as [(e & _ & ->)|[(l & c & k & _ & _ & ->)
                                     |(l & c & ps & _ & Hps & ->)]].
    - exists []. by rewrite app_nil_r.
    - by eexists.
    - eexists. split; [done|]. cbn [app]. unfold written. cbn [omap list_omap].
      induction Hps as [|[] ps Hp _ IH]; try done. }
  exists (writes ++ rest). split; [done|]. intros p.
  rewrite written_app, Hrest, app_nil_r.
  intros [contents Hin]%elem_of_written.
  rewrite Forall_forall in Hall. apply Hall in Hin. simpl in Hin. auto.
Qed.

Lemma workspace_removed_example :
  mkdtemp (ex_env 3) ex_fs = Ok ["tmp"; "d"]
  ∧ let w' := (scenario_iteration (ex_env 3) ex_args "s1" (World ex_fs [])).2 in
    (∀ p, ["tmp"; "d"] `prefix_of` p → w_fs w' !! p = None)
    ∧ ∃ tr, w_trace w' = [] ++ tr
            ∧ ∀ p, p ∈ written tr →
                   ["tmp"; "d"] `prefix_of` p ∧ w_fs w' !! p = None.
Proof.
  split; [vm_compute; reflexivity|].
  apply (workspace_removed (ex_env 3) ex_args "s1" (World ex_fs [])
           ["tmp"; "d"]).
  vm_compute; reflexivity.
Defined.

(** ** The run *)

Lemma main_run (env : Env) (args : Args) (w : world)
    (all_scenarios : list string) :
  get_scenarios env w = (Ok all_scenarios, w) →
  parse_args args all_scenarios w = (Ok tt, w) →
  main env args w
  = for_each (if truthy (a_scenario args) then default [] (a_scenario args)
              else all_scenarios)
             (scenario_iteration env args) w.
Proof.
  intros Hs Hp. unfold main. by rewrite bind_run, Hs, bind_run, Hp.
Qed.

Lemma scenario_iteration_shape (env : Env) (args : Args) (s : string)
    (w w' : world) (r : result unit) :
  scenario_iteration env args s w = (r, w') →
  ∃ writes,
    Forall is_write writes
    ∧ ((∃ e, r = Raise e ∧ w_trace w' = w_trace w ++ writes)
       ∨ (∃ line cmd code,
            code ≠ 0%Z
            ∧ r = Raise (CalledProcessError code cmd)
            ∧ w_trace w' = w_trace w ++ writes ++ [EvPrint line; EvRun cmd code])
       ∨ (∃ line cmd prints,
            r = Ok tt
            ∧ Forall is_print prints
            ∧ w_trace w'
              = w_trace w ++ writes
                ++ [EvPrint line; EvRun cmd 0;
                    EvGetResults (a_result_dir args ++ [s])] ++ prints)).
Proof.
  rewrite scenario_iteration_run.
  destruct (mkdtemp env (w_fs w)) as [d|e].
  - cbn zeta. destruct (scenario_body env args s d _) as [r1 w1] eqn:Hb.
    intros [= <- <-]. cbn [w_trace].
    apply scenario_body_shape in Hb as (writes & Hall & Hshape).
    exists writes. split; [|exact Hshape].
    eapply Forall_impl; [exact Hall|]. by intros [].
  - intros [= <- <-]. exists []. split; [done|]. left. exists e.
    by rewrite app_nil_r.
Qed.

(** C6. For every scenario whose benchmark command ends with a non-zero
    status: [get_results] is not called in that iteration, the failing
    command is the last thing the iteration does, the scenarios after it
    are not processed ([main] ends in the world that iteration leaves) and
    the run ends with a non-zero status. *)
Theorem executor_failure_stops_run (env : Env) (args : Args) (w w1 w2 : world)
    (all_scenarios pre post : list string) (s : string) (r : result unit)
    (tr : list event) (cmd : string) (code : Z) :
  get_scenarios env w = (Ok all_scenarios, w) →
  parse_args args all_scenarios w = (Ok tt, w) →
  (if truthy (a_scenario args) then default [] (a_scenario args)
   else all_scenarios) = pre ++ s :: post →
  for_each pre (scenario_iteration env args) w = (Ok tt, w1) →
  scenario_iteration env args s w1 = (r, w2) →
  w_trace w2 = w_trace w1 ++ tr →
  EvRun cmd code ∈ tr →
  code ≠ 0%Z →
  main env args w = (Raise (CalledProcessError code cmd), w2)
  ∧ exit_status (main env args w).1 ≠ 0%Z
  ∧ (∃ tr0, tr = tr0 ++ [EvRun cmd code])
  ∧ Forall (λ ev, ¬ is_get_results ev) tr.
Proof.
  intros Hs Hp Hsel Hpre Hit Htr Hin Hcode.
  pose proof Hit as Hshape.
  apply scenario_iteration_shape in Hshape as (writes & Hall & Hshape).
  assert (∀ c k, EvRun c k ∉ writes) as Hnw.
  { intros c k Hw. rewrite Forall_forall in Hall. by apply Hall in Hw. }
  assert (r = Raise (CalledProcessError code cmd)
          ∧ ∃ line, tr = writes ++ [EvPrint line; EvRun cmd code])
    as [-> [line ->]].
  { destruct Hshape as [(e & _ & Hw)|[(l & c & k & _ & -> & Hw)
                                     |(l & c & ps & _ & Hps & Hw)]];
      rewrite Htr in Hw; apply app_inv_head in Hw; subst tr.
    - by apply Hnw in Hin.
    - apply elem_of_app in Hin as [Hin|Hin]; [by apply Hnw in Hin|].
      apply elem_of_cons in Hin as [?|Hin]; [done|].
      apply list_elem_of_singleton in Hin. injection Hin as -> ->. eauto.
    - apply elem_of_app in Hin as [Hin|Hin]; [by apply Hnw in Hin|].
      apply elem_of_cons in Hin as [?|Hin]; [done|].
      apply elem_of_cons in Hin as [[= _ ->]|Hin]; [done|].
      apply elem_of_cons in Hin as [?|Hin]; [done|].
      rewrite Forall_forall in Hps. by apply Hps in Hin. }
  assert (main env args w = (Raise (CalledProcessError code cmd), w2)) as Hmain.
  { rewrite (main_run _ _ _ _ Hs Hp), Hsel, for_each_app, Hpre.
    cbn [for_each]. by rewrite bind_run, Hit. }
  split; [done|]. rewrite Hmain. split; [done|]. split.
  - exists (writes ++ [EvPrint line]). by rewrite <- app_assoc.
  - apply Forall_app. split.
    + eapply Forall_impl; [exact Hall|]. intros []; cbn; tauto.
    + repeat constructor; cbn; tauto.
Qed.

(** The command fails in the first of two scenarios: the run ends there. *)
Lemma executor_failure_example :
  main (ex_env 3) ex_args (World ex_fs [])
  = (Raise (CalledProcessError 3 ex_cmd_s2),
     (scenario_iteration (ex_env 3) ex_args "s2" (World ex_fs [])).2)
  ∧ exit_status (main (ex_env 3) ex_args (World ex_fs [])).1 ≠ 0%Z
  ∧ (∃ tr0,
       w_trace (scenario_iteration (ex_env 3) ex_args "s2" (World ex_fs [])).2
       = tr0 ++ [EvRun ex_cmd_s2 3])
  ∧ Forall (λ ev, ¬ is_get_results ev)
      (w_trace (scenario_iteration (ex_env 3) ex_args "s2" (World ex_fs [])).2).
Proof.
  apply (executor_failure_stops_run (ex_env 3) ex_args
           (World ex_fs []) (World ex_fs [])
           (scenario_iteration (ex_env 3) ex_args "s2" (World ex_fs [])).2
           ["s2"; "s1"] [] ["s1"] "s2"
           (scenario_iteration (ex_env 3) ex_args "s2" (World ex_fs [])).1).
  - vm_compute; reflexivity.
  - vm_compute; reflexivity.
  - reflexivity.
  - reflexivity.
  - by destruct (scenario_iteration _ _ _ _).
  - reflexivity.
  - apply list_elem_of_In. vm_compute. do 3 right. left. reflexivity.
  - done.
Defined.

(** ** Missing directories *)

Lemma gen_driver_step_written (driver_dir : path) (overrides : overrides_t)
    (t : DirEntry) (w w' : world) (p : path) :
  gen_driver_step driver_dir overrides t w = (Ok p, w') →
  ∃ contents, w_trace w' = w_trace w ++ [EvWrite p contents].
Proof.
  unfold gen_driver_step. rewrite bind_run, open_read_run.
  destruct (w_fs w !! de_path t) as [[T|]|]; [|done..].
  rewrite bind_run.
  destruct (open_write _ _ w) as [[u|e] w1] eqn:Hw; [|done].
  intros [= <- <-]. apply open_write_Ok_inv in Hw as ->. by eexists.
Qed.

Lemma gen_driver_written (driver_dir : path) (overrides : overrides_t)
    (ts : list DirEntry) (w w' : world) (paths : list path) :
  gen_driver driver_dir overrides ts w = (Ok paths, w') →
  ∃ tr, w_trace w' = w_trace w ++ tr ∧ written tr = paths.
Proof.
  revert w w' paths. induction ts as [|t ts IH]; intros w w' paths.
  - intros [= <- <-]. exists []. by rewrite app_nil_r.
  - cbn [gen_driver]. rewrite bind_run.
    destruct (gen_driver_step _ _ t w) as [[p|e] w1] eqn:Hs; [|done].
    apply gen_driver_step_written in Hs as [contents Hs].
    rewrite bind_run.
    destruct (gen_driver _ _ ts w1) as [[ps|e] w2] eqn:Hg; [|done].
    apply IH in Hg as (tr & Htr & Hwr). intros [= <- <-].
    exists (EvWrite p contents :: tr). split.
    + rewrite Htr, Hs. by rewrite <- app_assoc.
    + change (written (EvWrite p contents :: tr)) with (p :: written tr).
      by rewrite Hwr.
Qed.

Lemma setup_drivers_written (ts : list DirEntry) (s : string) (gen_dir : path)
    (overrides : overrides_t) (w w' : world) (paths : list path) :
  setup_drivers ts s gen_dir overrides w = (Ok paths, w') →
  ∃ tr, w_trace w' = w_trace w ++ tr ∧ written tr = paths.
Proof.
  unfold setup_drivers. rewrite bind_run.
  destruct (mkdir_p _ w) as [[u|e] w1] eqn:Hm; [|done].
  apply mkdir_p_trace in Hm.
  intros (tr & Htr & Hwr)%gen_driver_written. exists tr.
  by rewrite Htr, Hm.
Qed.

Lemma get_scenarios_missing (env : Env) (w : world) :
  w_fs w !! SCENARIO_DIR env = None →
  get_scenarios env w = (Raise (FileNotFoundError (SCENARIO_DIR env)), w).
Proof.
  intros H. unfold get_scenarios. by rewrite bind_run, os_scandir_run, H.
Qed.

Lemma get_driver_tmpls_missing (env : Env) (s : string) (w : world) :
  w_fs w !! (SCENARIO_DIR env ++ [s; "driver-tmpls"]) = None →
  get_driver_tmpls env s w
  = (Raise (FileNotFoundError (SCENARIO_DIR env ++ [s; "driver-tmpls"])), w).
Proof.
  intros H. unfold get_driver_tmpls. rewrite bind_run, os_scandir_run.
  rewrite <- app_assoc. simpl. by rewrite H.
Qed.

Lemma get_workloads_missing (env : Env) (s : string) (w : world) :
  w_fs w !! (SCENARIO_DIR env ++ [s; "workloads"]) = None →
  get_workloads env s w
  = (Raise (FileNotFoundError (SCENARIO_DIR env ++ [s; "workloads"])), w).
Proof.
  intros H. unfold get_workloads. rewrite bind_run, os_scandir_run.
  rewrite <- app_assoc. simpl. by rewrite H.
Qed.

(** C4 (as amended). A missing directory surfaces as [FileNotFoundError]
    where the code scans it. For a missing scenario root this is the
    first statement of [main]. For a scenario whose [driver-tmpls]
    directory is missing it is the statement after the directories of the
    iteration have been made, before any rendering: nothing has been
    written. For a scenario whose [workloads] directory is missing it is
    after the drivers have been rendered for both targets, all of which
    have then been written, and before the benchmark command is run. *)
Theorem missing_directory_surfaces (env : Env) (args : Args) (s : string)
    (d : path) :
  let kafka_dir := d ++ ["kafka"] in
  let hstream_dir := d ++ ["hstream"] in
  let out_dir := a_result_dir args ++ [s] in
  let tmpl_dir := SCENARIO_DIR env ++ [s; "driver-tmpls"] in
  let workloads_dir := SCENARIO_DIR env ++ [s; "workloads"] in
  (∀ w, w_fs w !! SCENARIO_DIR env = None →
        main env args w = (Raise (FileNotFoundError (SCENARIO_DIR env)), w))
  ∧ (∀ w w1 w2 w3,
       mkdir_p kafka_dir w = (Ok tt, w1) →
       mkdir_p hstream_dir w1 = (Ok tt, w2) →
       mkdir_p out_dir w2 = (Ok tt, w3) →
       w_fs w3 !! tmpl_dir = None →
       scenario_body env args s d w = (Raise (FileNotFoundError tmpl_dir), w3)
       ∧ w_trace w3 = w_trace w)
  ∧ (∀ w w1 w2 w3 tmpls kafka_drivers w5 hstream_drivers w6,
       mkdir_p kafka_dir w = (Ok tt, w1) →
       mkdir_p hstream_dir w1 = (Ok tt, w2) →
       mkdir_p out_dir w2 = (Ok tt, w3) →
       get_driver_tmpls env s w3 = (Ok tmpls, w3) →
       setup_drivers (select_by_name (a_driver args) tmpls) s kafka_dir
         (kafka_driver_overrides args) w3 = (Ok kafka_drivers, w5) →
       setup_drivers (select_by_name (a_driver args) tmpls) s hstream_dir
         (hstream_driver_overrides args) w5 = (Ok hstream_drivers, w6) →
       w_fs w6 !! workloads_dir = None →
       scenario_body env args s d w
       = (Raise (FileNotFoundError workloads_dir), w6)
       ∧ ∃ tr, w_trace w6 = w_trace w ++ tr
               ∧ written tr = kafka_drivers ++ hstream_drivers
               ∧ Forall is_write tr).
Proof.
  intros kafka_dir hstream_dir out_dir tmpl_dir workloads_dir.
  split; [|split].
  - intros w Hroot. unfold main.
    by rewrite bind_run, get_scenarios_missing.
  - intros w w1 w2 w3 H1 H2 H3 Hmiss. split.
    + unfold scenario_body. fold kafka_dir hstream_dir out_dir.
      rewrite bind_run, H1, bind_run, H2, bind_run, H3, bind_run.
      by rewrite get_driver_tmpls_missing.
    + apply mkdir_p_trace in H1, H2, H3. congruence.
  - intros w w1 w2 w3 tmpls kd w5 hd w6 H1 H2 H3 H4 H5 H6 Hmiss. split.
    + unfold scenario_body. fold kafka_dir hstream_dir out_dir.
      rewrite bind_run, H1, bind_run, H2, bind_run, H3, bind_run, H4.
      rewrite bind_run, H5, bind_run, H6, bind_run.
      by rewrite get_workloads_missing.
    + apply mkdir_p_trace in H1, H2, H3.
      pose proof (setup_drivers_trace _ _ _ _ _ _ _ H5) as (t5 & Ht5 & Ha5).
      pose proof (setup_drivers_trace _ _ _ _ _ _ _ H6) as (t6 & Ht6 & Ha6).
      apply setup_drivers_written in H5 as (tr5 & Htr5 & Hwr5).
      apply setup_drivers_written in H6 as (tr6 & Htr6 & Hwr6).
      rewrite Ht5 in Htr5. apply app_inv_head in Htr5 as ->.
      rewrite Ht6 in Htr6. apply app_inv_head in Htr6 as ->.
      exists (tr5 ++ tr6). split; [|split].
      * rewrite Ht6, Ht5, H3, H2, H1. by rewrite app_assoc.
      * by rewrite written_app, Hwr5, Hwr6.
      * apply Forall_app. split; (eapply Forall_impl; [done|]); by intros [].
Qed.

(** The scenario [s1] without its [workloads] directory: the iteration
    ends on [FileNotFoundError] after the four drivers were written.
    Without its [driver-tmpls] directory: it ends on [FileNotFoundError]
    with nothing written. *)
Lemma missing_directory_example :
  (∃ w6 tr,
     scenario_body (ex_env 0) ex_args_s1 "s1" ["tmp"; "d"]
       (World (<[ ["tmp"; "d"] := Dir ]> ex_fs_no_workloads) [])
     = (Raise (FileNotFoundError ["p"; "scenarios"; "s1"; "workloads"]), w6)
     ∧ w_trace w6 = [] ++ tr
     ∧ written tr
       = [["tmp"; "d"; "kafka"; "s1"; "drivers"; "acks.yaml"];
          ["tmp"; "d"; "kafka"; "s1"; "drivers"; "kafka.yaml"]]
         ++ [["tmp"; "d"; "hstream"; "s1"; "drivers"; "acks.yaml"];
             ["tmp"; "d"; "hstream"; "s1"; "drivers"; "kafka.yaml"]]
     ∧ Forall is_write tr)
  ∧ (∃ w3,
       scenario_body (ex_env 0) ex_args_s1 "s1" ["tmp"; "d"]
         (World (<[ ["tmp"; "d"] := Dir ]> ex_fs_no_tmpls) [])
       = (Raise (FileNotFoundError ["p"; "scenarios"; "s1"; "driver-tmpls"]),
          w3)
       ∧ w_trace w3 = []).
Proof.
  destruct (missing_directory_surfaces (ex_env 0) ex_args_s1 "s1" ["tmp"; "d"])
    as (_ & Htmpls & Hwork).
  split.
  - set (w := World (<[ ["tmp"; "d"] := Dir ]> ex_fs_no_workloads) []).
    set (w1 := (mkdir_p ["tmp"; "d"; "kafka"] w).2).
    set (w2 := (mkdir_p ["tmp"; "d"; "hstream"] w1).2).
    set (w3 := (mkdir_p ["results"; "s1"] w2).2).
    set (tmpls := List.filter is_file
                    (dir_entries (w_fs w3)
                       ["p"; "scenarios"; "s1"; "driver-tmpls"])).
    set (w5 := (setup_drivers tmpls "s1" ["tmp"; "d"; "kafka"]
                  (kafka_driver_overrides ex_args_s1) w3).2).
    set (w6 := (setup_drivers tmpls "s1" ["tmp"; "d"; "hstream"]
                  (hstream_driver_overrides ex_args_s1) w5).2).
    destruct (Hwork w w1 w2 w3 tmpls
                [["tmp"; "d"; "kafka"; "s1"; "drivers"; "acks.yaml"];
                 ["tmp"; "d"; "kafka"; "s1"; "drivers"; "kafka.yaml"]]
                w5
                [["tmp"; "d"; "hstream"; "s1"; "drivers"; "acks.yaml"];
                 ["tmp"; "d"; "hstream"; "s1"; "drivers"; "kafka.yaml"]]
                w6) as (Hrun & tr & Htr & Hwr & Hall);
      try (vm_compute; reflexivity).
    exists w6, tr. auto.
  - set (w := World (<[ ["tmp"; "d"] := Dir ]> ex_fs_no_tmpls) []).
    set (w1 := (mkdir_p ["tmp"; "d"; "kafka"] w).2).
    set (w2 := (mkdir_p ["tmp"; "d"; "hstream"] w1).2).
    set (w3 := (mkdir_p ["results"; "s1"] w2).2).
    destruct (Htmpls w w1 w2 w3) as [Hrun Htr]; try (vm_compute; reflexivity).
    exists w3. auto.
Defined.

(** C4 as stated fails for the [workloads] directory: without it the run
    of the scenario [s1] ends on [FileNotFoundError], but only after the
    drivers of the scenario have been rendered and written. *)
Lemma missing_workloads_renders_first :
  ex_fs_no_workloads !! ["p"; "scenarios"; "s1"; "workloads"] = None
  ∧ (main (ex_env 0) ex_args_s1 (World ex_fs_no_workloads [])).1
    = Raise (FileNotFoundError ["p"; "scenarios"; "s1"; "workloads"])
  ∧ w_trace (main (ex_env 0) ex_args_s1 (World ex_fs_no_workloads [])).2
    = [EvWrite ["tmp"; "d"; "kafka"; "s1"; "drivers"; "acks.yaml"]
         "kafka: acks=all";
       EvWrite ["tmp"; "d"; "kafka"; "s1"; "drivers"; "kafka.yaml"]
         "name: kafka at localhost:9092";
       EvWrite ["tmp"; "d"; "hstream"; "s1"; "drivers"; "acks.yaml"]
         "hstream-kafka: acks=all";
       EvWrite ["tmp"; "d"; "hstream"; "s1"; "drivers"; "kafka.yaml"]
         "name: hstream-kafka at localhost:9093"].
Proof. repeat split; vm_compute; reflexivity. Qed.

(** ** The benchmark command *)

Lemma str_join_entries (sep : string) (e : DirEntry) (es : list DirEntry) :
  str_join sep (PyDirEntry <$> e :: es) = Raise TypeError.
Proof. reflexivity. Qed.

Lemma str_join_strs (sep : string) (l : list string) :
  str_join sep (PyStr <$> l) = Ok (String.concat sep l).
Proof.
  unfold str_join.
  assert (str_items (PyStr <$> l) = Ok l) as ->; [|done].
  induction l as [|x l IH]; [done|]. cbn [fmap list_fmap str_items] in *.
  by rewrite IH.
Qed.

(** C3, on the code: with one workload selected, [" ".join(workloads)]
    is given [os.DirEntry] objects and raises [TypeError]; the run ends
    there, no command has been built and none has been run. *)
Theorem workloads_join_raises :
  (main (ex_env 0) ex_args_s1 (World ex_fs_workload [])).1 = Raise TypeError
  ∧ Forall (λ ev, ¬ is_run ev)
      (w_trace (main (ex_env 0) ex_args_s1 (World ex_fs_workload [])).2)
  ∧ (get_workloads (ex_env 0) "s1" (World ex_fs_workload [])).1
    = Ok [{| de_name := "1-topic.yaml";
             de_path := ["p"; "scenarios"; "s1"; "workloads"; "1-topic.yaml"];
             de_node := File "topics: 1" |}].
Proof.
  split; [vm_compute; reflexivity|]. split; [|vm_compute; reflexivity].
  apply Forall_forall. intros ev Hin. apply list_elem_of_In in Hin.
  vm_compute in Hin. intuition subst; by cbn.
Qed.

(** With no workload selected the command is built and run: the driver
    paths of both targets joined by commas, the output directory, and no
    workload. *)
Example command_without_workloads :
  w_trace (scenario_iteration (ex_env 0) ex_args "s2" (World ex_fs [])).2
  !! 3 = Some (EvRun ex_cmd_s2 0).
Proof. vm_compute. reflexivity. Qed.

(** * Part III: further properties of the code *)

(** A closed equation whose left-hand side evaluates to its right-hand
    side. *)
Ltac evaluates :=
  lazymatch goal with
  | |- ?l = ?r => exact (@eq_refl _ r <: l = r)
  end.


(** ** Templates and placeholders *)

Lemma contains_cons (c : ascii) (s k : string) :
  Str.contains (String c s) k = String.prefix k (String c s) || Str.contains s k.
Proof. reflexivity. Qed.

Lemma contains_nil (k : string) :
  Str.nonempty k = true → Str.contains "" k = false.
Proof. by destruct k. Qed.

Lemma contains_nonempty (s k : string) :
  Str.contains s k = false → Str.nonempty k = true.
Proof. destruct k; [|done]. destruct s; simpl; done. Qed.

Lemma contains_app_r (a b k : string) :
  Str.contains (a +:+ b) k = false → Str.contains b k = false.
Proof.
  induction a as [|c a IH]; [done|]. rewrite StrFacts.app_cons, contains_cons.
  intros [_ H]%orb_false_iff. auto.
Qed.

Lemma str_replace_absent (k v s : string) :
  Str.contains s k = false → str_replace k v s = s.
Proof.
  intros H. pose proof (contains_nonempty _ _ H) as Hk.
  induction s as [|c s IH]; [by apply str_replace_nil|].
  rewrite contains_cons in H. apply orb_false_iff in H as [Hp H].
  rewrite str_replace_skip by done. by rewrite IH.
Qed.

(** X1. A template in which no key of the override map occurs is
    rendered unchanged. *)
Theorem render_without_tokens (M : overrides_t) (T : string) :
  (∀ k, k ∈ keys M → Str.contains T k = false) →
  render_contents M T = T.
Proof.
  induction M as [|[k v] M IH]; intros H; [done|].
  rewrite render_contents_cons, str_replace_absent.
  - apply IH. intros k' Hk'. apply H. by right.
  - apply H. by left.
Qed.

Lemma render_without_tokens_example :
  (∀ k, k ∈ keys spec_overrides →
        Str.contains "acks=all, linger.ms=1" k = false)
  ∧ render_contents spec_overrides "acks=all, linger.ms=1"
    = "acks=all, linger.ms=1".
Proof.
  assert (∀ k, k ∈ keys spec_overrides →
               Str.contains "acks=all, linger.ms=1" k = false) as H.
  { intros k Hk. vm_compute in Hk.
    repeat (apply elem_of_cons in Hk as [->|Hk]; [vm_compute; reflexivity|]).
    by apply elem_of_nil in Hk. }
  split; [exact H|]. by apply render_without_tokens.
Defined.

Lemma contains_value_app (v s k0 : string) :
  Str.no_common_char v k0 = true →
  Str.contains s k0 = false → Str.contains (v +:+ s) k0 = false.
Proof.
  intros Hv Hs. induction v as [|c v IH]; [done|].
  rewrite StrFacts.app_cons, contains_cons. simpl in Hv.
  apply andb_true_iff in Hv as [Hc Hv]. apply negb_true_iff in Hc.
  rewrite (IH Hv), orb_false_r.
  destruct (String.prefix k0 _) eqn:Hp; [|done].
  assert (key_matches k0 (String c (v +:+ s)) = true) as Hm.
  { unfold key_matches. by rewrite (contains_nonempty _ _ Hs), Hp. }
  by rewrite (has_char_head_match _ _ _ Hm) in Hc.
Qed.

(** After a replacement by a value that has no character of [k0], the
    key [k0] does not occur when it is the replaced key or did not occur
    before. *)
Lemma contains_str_replace (k v k0 s : string) :
  Str.nonempty k = true → Str.nonempty v = true → Str.nonempty k0 = true →
  Str.no_common_char v k0 = true →
  k0 = k ∨ Str.contains s k0 = false →
  Str.contains (str_replace k v s) k0 = false.
Proof.
  intros Hk Hv Hk0 Hd. induction s as [s IH] using StrFacts.length_ind.
  intros Hs. destruct s as [|c s].
  { rewrite str_replace_nil by done. by apply contains_nil. }
  destruct (String.prefix k (String c s)) eqn:Hp.
  - rewrite (StrFacts.prefix_split _ _ Hp) in Hs |- *.
    set (s1 := Str.drop (String.length k) (String c s)) in *.
    rewrite str_replace_match by done. apply contains_value_app; [done|].
    apply IH.
    + rewrite (StrFacts.prefix_split _ _ Hp), StrFacts.length_app. fold s1.
      pose proof (StrFacts.nonempty_length _ Hk). lia.
    + destruct Hs as [->|Hs]; [by left|right]. by eapply contains_app_r.
  - rewrite str_replace_skip by done. rewrite contains_cons.
    apply orb_false_iff. split.
    + destruct (String.prefix k0 _) eqn:Hp0; [|done]. exfalso.
      rewrite <- (str_replace_skip k v) in Hp0 by done.
      apply (prefix_replace_reflect _ _ _ _ Hk Hv Hd) in Hp0.
      destruct Hs as [->|Hs]; [congruence|].
      rewrite contains_cons, Hp0 in Hs. done.
    + apply IH; [simpl; lia|]. destruct Hs as [->|Hs]; [by left|right].
      rewrite contains_cons in Hs. by apply orb_false_iff in Hs as [_ ?].
Qed.

Lemma render_tokens_gone_from (M : overrides_t) (T : string)
    (done_keys : list string) :
  (∀ k0, k0 ∈ done_keys → Str.contains T k0 = false) →
  (∀ k v, (k, v) ∈ M →
          Str.nonempty k = true ∧ Str.nonempty v = true
          ∧ ∀ k0, k0 ∈ done_keys ++ keys M → Str.no_common_char v k0 = true) →
  ∀ k0, k0 ∈ done_keys ++ keys M →
        Str.contains (render_contents M T) k0 = false.
Proof.
  revert T done_keys. induction M as [|[k v] M IH]; intros T dk Hdone HM k0 Hk0.
  - rewrite app_nil_r in Hk0. by apply Hdone.
  - rewrite render_contents_cons.
    destruct (HM k v) as (Hk & Hv & Hoff); [by left|].
    assert (∀ k1, k1 ∈ dk ++ keys ((k, v) :: M) → Str.nonempty k1 = true)
      as Hne.
    { intros k1 [Hk1|Hk1]%elem_of_app.
      - by eapply contains_nonempty, Hdone.
      - apply list_elem_of_fmap in Hk1 as [[k1' v1] [-> Hin]].
        by apply HM in Hin as [? _]. }
    apply (IH _ (dk ++ [k])).
    + intros k1 [Hk1| ->%list_elem_of_singleton]%elem_of_app.
      * apply contains_str_replace; try done.
        -- apply Hne, elem_of_app. by left.
        -- apply Hoff, elem_of_app. by left.
        -- right. by apply Hdone.
      * apply contains_str_replace; try done; [|by left].
        apply Hoff, elem_of_app. right. by left.
    + intros k1 v1 Hin. destruct (HM k1 v1) as (?&?&Hoff1); [by right|].
      do 2 (split; [done|]). intros k2 Hk2. apply Hoff1.
      rewrite <- app_assoc in Hk2. exact Hk2.
    + rewrite <- app_assoc. exact Hk0.
Qed.

(** X2. When the keys of the override map are non-empty and every value
    is non-empty and has no character in common with any key, no key is
    left in the rendered text, whatever the template. *)
Theorem render_leaves_no_token (M : overrides_t) (T : string) :
  keys_nonempty (keys M) = true →
  values_off_keys M = true →
  ∀ k, k ∈ keys M → Str.contains (render_contents M T) k = false.
Proof.
  intros Hne Hoff k Hk.
  apply (render_tokens_gone_from M T []); [by intros ? ?%elem_of_nil| |done].
  intros k1 v1 Hin. unfold keys_nonempty, values_off_keys in *.
  rewrite forallb_forall in Hne, Hoff.
  pose proof (Hoff (k1, v1) (proj1 (list_elem_of_In _ _) Hin)) as H.
  apply andb_true_iff in H as [Hv H]. rewrite forallb_forall in H.
  split; [|split; [done|]].
  - apply Hne, list_elem_of_In, list_elem_of_fmap. by exists (k1, v1).
  - intros k0 Hk0. by apply H, list_elem_of_In.
Qed.

(** The kafka map of [main] with the bootstrap servers [localhost:9092]:
    no placeholder is left in the rendered template. *)
Lemma render_leaves_no_token_example :
  keys_nonempty (keys (kafka_driver_overrides ex_args)) = true
  ∧ values_off_keys (kafka_driver_overrides ex_args) = true
  ∧ ∀ k, k ∈ keys (kafka_driver_overrides ex_args) →
         Str.contains
           (render_contents (kafka_driver_overrides ex_args) spec_template) k
         = false.
Proof.
  do 2 (split; [vm_compute; reflexivity|]).
  apply render_leaves_no_token; vm_compute; reflexivity.
Defined.

(** An empty value can leave a key in the rendered text. *)
Example render_empty_value_leaves_token :
  render_contents [("ab", "")] "aabb" = "ab".
Proof. vm_compute. reflexivity. Qed.

(** ** Discovery *)

(** X3. When the scenario root is a directory, [get_scenarios] returns
    exactly the names of the directories directly in it (a regular file
    of the root is no scenario) and leaves the world as it is. *)
Theorem get_scenarios_lists_directories (env : Env) (w : world) :
  w_fs w !! SCENARIO_DIR env = Some Dir →
  ∃ names,
    get_scenarios env w = (Ok names, w)
    ∧ ∀ name, name ∈ names ↔ w_fs w !! (SCENARIO_DIR env ++ [name]) = Some Dir.
Proof.
  intros Hd. eexists. split.
  { unfold get_scenarios. by rewrite bind_run, os_scandir_run, Hd. }
  intros name. rewrite list_elem_of_fmap. split.
  - intros (e & -> & He). apply list_elem_of_In, filter_In in He as [He Hdir].
    apply list_elem_of_In, dir_entries_spec in He as [Hp Hfs].
    unfold is_dir in Hdir. destruct (de_node e); [done|]. by rewrite <- Hp.
  - intros Hfs.
    exists {| de_name := name; de_path := SCENARIO_DIR env ++ [name];
              de_node := Dir |}.
    split; [done|]. apply list_elem_of_In, filter_In. split; [|done].
    by apply list_elem_of_In, dir_entries_spec.
Qed.

Lemma get_scenarios_example :
  ex_fs !! ["p"; "scenarios"] = Some Dir
  ∧ ∃ names,
      get_scenarios (ex_env 0) (World ex_fs []) = (Ok names, World ex_fs [])
      ∧ ∀ name, name ∈ names ↔ ex_fs !! (["p"; "scenarios"] ++ [name]) = Some Dir.
Proof.
  split; [vm_compute; reflexivity|].
  apply (get_scenarios_lists_directories (ex_env 0) (World ex_fs [])).
  vm_compute; reflexivity.
Defined.

(** X4. When the [driver-tmpls] directory, respectively the [workloads]
    directory, of a scenario is a directory, [get_driver_tmpls],
    respectively [get_workloads], returns exactly the regular files
    directly in it, each with the path [dir/name]; a subdirectory is not
    returned, and the world is left as it is. *)
Theorem scenario_files_listed (env : Env) (s : string) (w : world) :
  let tmpl_dir := SCENARIO_DIR env ++ [s; "driver-tmpls"] in
  let workloads_dir := SCENARIO_DIR env ++ [s; "workloads"] in
  (w_fs w !! tmpl_dir = Some Dir →
   get_driver_tmpls env s w = (Ok (files_in (w_fs w) tmpl_dir), w))
  ∧ (w_fs w !! workloads_dir = Some Dir →
     get_workloads env s w = (Ok (files_in (w_fs w) workloads_dir), w))
  ∧ ∀ dir,
      (∀ e, e ∈ files_in (w_fs w) dir →
            is_file e = true ∧ de_path e = dir ++ [de_name e])
      ∧ (∀ name T, w_fs w !! (dir ++ [name]) = Some (File T) ↔
                   {| de_name := name; de_path := dir ++ [name];
                      de_node := File T |} ∈ files_in (w_fs w) dir)
      ∧ (∀ name, w_fs w !! (dir ++ [name]) = Some Dir →
                 ∀ e, e ∈ files_in (w_fs w) dir → de_name e ≠ name).
Proof.
  intros tmpl_dir workloads_dir.
  split; [by apply get_driver_tmpls_run|].
  split; [by apply get_workloads_run|].
  intros dir. unfold files_in. split; [|split].
  - intros [n p nd] (T & He & Hfs)%file_entries_spec. cbn in He.
    by injection He as -> ->.
  - intros name T. rewrite file_entries_spec. cbn. split.
    + intros Hfs. by exists T.
    + by intros (T' & [= ->] & Hfs).
  - intros name Hfs e (T & He & HT)%file_entries_spec Hn.
    rewrite Hn in HT. congruence.
Qed.

Lemma scenario_files_example :
  ex_fs !! (["p"; "scenarios"] ++ ["s1"; "driver-tmpls"]) = Some Dir
  ∧ get_driver_tmpls (ex_env 0) "s1" (World ex_fs [])
    = (Ok (files_in ex_fs (["p"; "scenarios"] ++ ["s1"; "driver-tmpls"])),
       World ex_fs [])
  ∧ ex_fs !! (["p"; "scenarios"] ++ ["s2"; "workloads"]) = Some Dir
  ∧ get_workloads (ex_env 0) "s2" (World ex_fs [])
    = (Ok (files_in ex_fs (["p"; "scenarios"] ++ ["s2"; "workloads"])),
       World ex_fs []).
Proof.
  split; [vm_compute; reflexivity|]. split.
  - apply (scenario_files_listed (ex_env 0) "s1" (World ex_fs [])).
    vm_compute; reflexivity.
  - split; [vm_compute; reflexivity|].
    apply (scenario_files_listed (ex_env 0) "s2" (World ex_fs [])).
    vm_compute; reflexivity.
Defined.

(** ** What [setup_drivers] leaves in the file system *)

Lemma open_write_frame (p : path) (contents : string) (w w' : world)
    (r : result unit) (q : path) :
  open_write p contents w = (r, w') → q ≠ p → w_fs w' !! q = w_fs w !! q.
Proof.
  unfold open_write. rewrite bind_run. simpl.
  destruct (w_fs w !! p) as [[]|];
    try destruct (dir_exists (w_fs w) (parent p));
    intros [= <- <-] Hq; try done; simpl; by rewrite lookup_insert_ne.
Qed.

Lemma gen_driver_step_frame (driver_dir : path) (overrides : overrides_t)
    (t : DirEntry) (w w' : world) (r : result path) (q : path) :
  gen_driver_step driver_dir overrides t w = (r, w') →
  q ≠ driver_dir ++ [de_name t] → w_fs w' !! q = w_fs w !! q.
Proof.
  unfold gen_driver_step. rewrite bind_run, open_read_run.
  destruct (w_fs w !! de_path t) as [[T|]|]; try by intros [= <- <-].
  rewrite bind_run.
  destruct (open_write _ _ w) as [[u|e] w1] eqn:Hw; intros [= <- <-] Hq;
    by eapply open_write_frame.
Qed.

Lemma gen_driver_frame (driver_dir : path) (overrides : overrides_t)
    (ts : list DirEntry) (w w' : world) (r : result (list path)) (q : path) :
  gen_driver driver_dir overrides ts w = (r, w') →
  q ∉ (λ t, driver_dir ++ [de_name t]) <$> ts →
  w_fs w' !! q = w_fs w !! q.
Proof.
  revert w r w'. induction ts as [|t ts IH]; intros w r w'.
  - by intros [= <- <-].
  - cbn [gen_driver]. rewrite bind_run. intros H Hq.
    rewrite fmap_cons in Hq. apply not_elem_of_cons in Hq as [Hq1 Hq2].
    destruct (gen_driver_step _ _ t w) as [[p|e] w1] eqn:Hs.
    + rewrite bind_run in H.
      destruct (gen_driver _ _ ts w1) as [[ps|e] w2] eqn:Hg;
        injection H as <- <-;
        rewrite (IH _ _ _ Hg Hq2); by eapply gen_driver_step_frame.
    + injection H as <- <-. by eapply gen_driver_step_frame.
Qed.





(** ** The events of a run *)

Lemma emits_ret {A} (Q : event → Prop) (a : A) : emits Q (mret a).
Proof. intros w r w' [= <- <-]. exists []. by rewrite app_nil_r. Qed.

Lemma emits_raise {A} (Q : event → Prop) (e : exn) : emits Q (raise (A:=A) e).
Proof. intros w r w' [= <- <-]. exists []. by rewrite app_nil_r. Qed.

Lemma emits_lift {A} (Q : event → Prop) (x : result A) : emits Q (lift x).
Proof. intros w r w' [= <- <-]. exists []. by rewrite app_nil_r. Qed.

Lemma emits_get_fs (Q : event → Prop) : emits Q get_fs.
Proof. intros w r w' [= <- <-]. exists []. by rewrite app_nil_r. Qed.

Lemma emits_put_fs (Q : event → Prop) (fs : gmap path node) :
  emits Q (put_fs fs).
Proof. intros w r w' [= <- <-]. exists []. by rewrite app_nil_r. Qed.

Lemma emits_emit (Q : event → Prop) (ev : event) : Q ev → emits Q (emit ev).
Proof. intros HQ w r w' [= <- <-]. exists [ev]. by repeat constructor. Qed.

Lemma emits_bind {A B} (Q : event → Prop) (m : M A) (f : A → M B) :
  emits Q m → (∀ a, emits Q (f a)) → emits Q (m ≫= f).
Proof.
  intros Hm Hf w r w'. rewrite bind_run.
  destruct (m w) as [[a|e] w1] eqn:E; apply Hm in E as (tr1 & Htr1 & Hall1).
  - intros (tr2 & Htr2 & Hall2)%Hf. exists (tr1 ++ tr2).
    split; [by rewrite Htr2, Htr1, app_assoc|by apply Forall_app].
  - intros [= <- <-]. by exists tr1.
Qed.

Lemma emits_finally {A} (Q : event → Prop) (m : M A) (cleanup : world → world) :
  (∀ w, w_trace (cleanup w) = w_trace w) →
  emits Q m → emits Q (finally m cleanup).
Proof.
  intros Hc Hm w r w'. unfold finally.
  destruct (m w) as [r1 w1] eqn:E. apply Hm in E as (tr & Htr & Hall).
  intros [= <- <-]. exists tr. by rewrite Hc.
Qed.

Ltac emits_silent :=
  repeat first
    [ apply emits_ret | apply emits_raise | apply emits_lift
    | apply emits_get_fs | apply emits_put_fs
    | apply emits_bind; [|intros ?] ].

Lemma emits_mkdir_p (Q : event → Prop) (p : path) : emits Q (mkdir_p p).
Proof.
  unfold mkdir_p. apply emits_bind; [apply emits_get_fs|]. intros fs.
  destruct (find _ _); [apply emits_raise|].
  destruct (is_File fs p); [apply emits_raise|apply emits_put_fs].
Qed.

Lemma emits_os_scandir (Q : event → Prop) (dir : path) :
  emits Q (os_scandir dir).
Proof.
  unfold os_scandir. apply emits_bind; [apply emits_get_fs|]. intros fs.
  destruct (fs !! dir) as [[]|]; emits_silent.
Qed.

Lemma emits_open_read (Q : event → Prop) (p : path) : emits Q (open_read p).
Proof.
  unfold open_read. apply emits_bind; [apply emits_get_fs|]. intros fs.
  destruct (fs !! p) as [[]|]; emits_silent.
Qed.

Lemma emits_open_write (Q : event → Prop) (p : path) (contents : string) :
  Q (EvWrite p contents) → emits Q (open_write p contents).
Proof.
  intros HQ. unfold open_write. apply emits_bind; [apply emits_get_fs|].
  intros fs.
  destruct (fs !! p) as [[]|]; try apply emits_raise;
    (destruct (dir_exists fs (parent p)); [|apply emits_raise]);
    (apply emits_bind; [apply emits_put_fs|intros _; by apply emits_emit]).
Qed.

Lemma emits_gen_driver (Q : event → Prop) (driver_dir : path)
    (overrides : overrides_t) (ts : list DirEntry) :
  (∀ name contents, Q (EvWrite (driver_dir ++ [name]) contents)) →
  emits Q (gen_driver driver_dir overrides ts).
Proof.
  intros HQ. induction ts as [|t ts IH]; [apply emits_ret|].
  cbn [gen_driver]. apply emits_bind.
  - unfold gen_driver_step. apply emits_bind; [apply emits_open_read|].
    intros T. apply emits_bind; [by apply emits_open_write|].
    intros _. apply emits_ret.
  - intros p. apply emits_bind; [exact IH|]. intros ps. apply emits_ret.
Qed.

Lemma emits_setup_drivers (Q : event → Prop) (ts : list DirEntry) (s : string)
    (gen_dir : path) (overrides : overrides_t) :
  (∀ p contents, gen_dir `prefix_of` p → Q (EvWrite p contents)) →
  emits Q (setup_drivers ts s gen_dir overrides).
Proof.
  intros HQ. unfold setup_drivers. apply emits_bind; [apply emits_mkdir_p|].
  intros _. apply emits_gen_driver. intros name contents. apply HQ.
  rewrite <- app_assoc. by apply prefix_app_r.
Qed.

Lemma emits_subprocess_run (Q : event → Prop) (env : Env) (cmd : string) :
  (∀ code, Q (EvRun cmd code)) → emits Q (subprocess_run env cmd).
Proof.
  intros HQ. unfold subprocess_run. apply emits_bind; [apply emits_get_fs|].
  intros fs. apply emits_bind; [apply emits_put_fs|]. intros _.
  apply emits_bind; [by apply emits_emit|]. intros _.
  destruct (decide _); emits_silent.
Qed.

Lemma emits_get_results (Q : event → Prop) (env : Env) (dir : path) :
  Q (EvGetResults dir) → emits Q (get_results env dir).
Proof.
  intros HQ. unfold get_results. apply emits_bind; [by apply emits_emit|].
  intros _. unfold glob_json. apply emits_bind; [apply emits_get_fs|].
  intros fs. destruct (has_magic dir); [apply emits_ret|].
  destruct (fs !! dir) as [[]|]; apply emits_ret.
Qed.

Lemma emits_scenario_body (Q : event → Prop) (env : Env) (args : Args)
    (s : string) (d : path) :
  (∀ p contents, d `prefix_of` p → Q (EvWrite p contents)) →
  (∀ line, Q (EvPrint line)) →
  (∀ cmd code, String.prefix "bin/benchmark -d " cmd = true →
               Q (EvRun cmd code)) →
  Q (EvGetResults (a_result_dir args ++ [s])) →
  emits Q (scenario_body env args s d).
Proof.
  intros HW HP HR HG. unfold scenario_body.
  do 3 (apply emits_bind; [apply emits_mkdir_p|intros _]).
  apply emits_bind.
  { unfold get_driver_tmpls. apply emits_bind; [apply emits_os_scandir|].
    intros ?. apply emits_ret. }
  intros tmpls.
  do 2 (apply emits_bind;
        [apply emits_setup_drivers; intros p c Hp; apply HW;
         by etrans; [apply prefix_app_r|exact Hp]|intros ?]).
  apply emits_bind.
  { unfold get_workloads. apply emits_bind; [apply emits_os_scandir|].
    intros ?. apply emits_ret. }
  intros workloads.
  do 2 (apply emits_bind; [apply emits_lift|intros ?]).
  apply emits_bind; [apply emits_emit, HP|intros _].
  apply emits_bind.
  { apply emits_subprocess_run. intros code. apply HR, StrFacts.prefix_app. }
  intros _. apply emits_bind; [by apply emits_get_results|].
  intros [|res results]; [apply emits_ret|apply emits_emit, HP].
Qed.

Lemma mkdtemp_from_name (names : nat → path) (fs : gmap path node)
    (fuel i : nat) (d : path) :
  mkdtemp_from names fs fuel i = Ok d → ∃ j, d = names j.
Proof.
  revert i. induction fuel as [|fuel IH]; intros i; [done|]. simpl.
  destruct (fs !! names i); [apply IH|].
  destruct (dir_exists fs (parent (names i))); [|done].
  intros [= <-]. eauto.
Qed.

Lemma emits_for_each {A} (Q : event → Prop) (xs : list A) (f : A → M unit) :
  (∀ x, emits Q (f x)) → emits Q (for_each xs f).
Proof.
  intros Hf. induction xs as [|x xs IH]; [apply emits_ret|].
  cbn [for_each]. apply emits_bind; [apply Hf|]. by intros _.
Qed.

(** X6. Whatever the file system, the command line and the outcome, a
    run of [main] writes files only below the directories that [tempfile]
    named, runs no other command than one that begins with
    [bin/benchmark -d] (the chart command it builds is printed, never
    run), and looks for results only in a directory [result_dir/s]. *)
Theorem main_events (env : Env) (args : Args) (w : world) :
  ∃ tr, w_trace (main env args w).2 = w_trace w ++ tr
        ∧ Forall (main_event env args) tr.
Proof.
  assert (emits (main_event env args) (main env args)) as H;
    [|destruct (main env args w) as [r w'] eqn:E; by apply H in E].
  unfold main. apply emits_bind.
  { unfold get_scenarios. apply emits_bind; [apply emits_os_scandir|].
    intros ?. apply emits_ret. }
  intros all_scenarios. apply emits_bind.
  { unfold parse_args. destruct (forallb _ _); emits_silent. }
  intros _. apply emits_for_each. intros s w0 r w'.
  rewrite scenario_iteration_run.
  destruct (mkdtemp env (w_fs w0)) as [d|e] eqn:Hd.
  - apply mkdtemp_from_name in Hd as [j ->]. cbn zeta.
    destruct (scenario_body env args s _ _) as [r1 w1] eqn:Hb.
    intros [= <- <-]. cbn [w_trace].
    eapply (emits_scenario_body (main_event env args)) in Hb; [exact Hb|..];
      cbn; eauto.
  - intros [= <- <-]. exists []. by rewrite app_nil_r.
Qed.

(** ** Execute and Collect *)

Lemma glob_json_run (env : Env) (dir : path) (w : world) :
  glob_json env dir w = (Ok (json_matches env (w_fs w) dir), w).
Proof.
  unfold glob_json, json_matches. rewrite bind_run. simpl.
  destruct (has_magic dir); [done|]. by destruct (w_fs w !! dir) as [[]|].
Qed.

Lemma str_join_paths (sep : string) (l : list path) :
  str_join sep (PyStr ∘ path_str <$> l) = Ok (String.concat sep (path_str <$> l)).
Proof. by rewrite list_fmap_compose, str_join_strs. Qed.

(** X7. Once the directories of the iteration are made and the drivers
    rendered, and when no workload is selected: the iteration prints and
    runs one command, [bin/benchmark -d] with the kafka driver paths and
    then the hstream driver paths joined by commas, [-od] with the output
    directory, and a trailing blank. If the command ends with a non-zero
    status the iteration raises [CalledProcessError] there. If it ends
    with 0, [get_results] is called on the output directory and, when it
    finds result files, the chart command listing them is printed, not
    run; the iteration returns. *)
Theorem execute_and_collect (env : Env) (args : Args) (s : string) (d : path)
    (w w1 w2 w3 w5 w6 : world) (tmpls workloads : list DirEntry)
    (kafka_drivers hstream_drivers : list path) :
  let kafka_dir := d ++ ["kafka"] in
  let hstream_dir := d ++ ["hstream"] in
  let out_dir := a_result_dir args ++ [s] in
  mkdir_p kafka_dir w = (Ok tt, w1) →
  mkdir_p hstream_dir w1 = (Ok tt, w2) →
  mkdir_p out_dir w2 = (Ok tt, w3) →
  get_driver_tmpls env s w3 = (Ok tmpls, w3) →
  setup_drivers (select_by_name (a_driver args) tmpls) s kafka_dir
    (kafka_driver_overrides args) w3 = (Ok kafka_drivers, w5) →
  setup_drivers (select_by_name (a_driver args) tmpls) s hstream_dir
    (hstream_driver_overrides args) w5 = (Ok hstream_drivers, w6) →
  get_workloads env s w6 = (Ok workloads, w6) →
  select_by_name (a_workload args) workloads = [] →
  let cmd := bench_cmd_of (kafka_drivers ++ hstream_drivers) out_dir "" in
  let sh := env_shell env cmd (w_fs w6) in
  let ran :=
    w_trace w6 ++ [EvPrint (coloured ("Run command: " +:+ cmd));
                   EvRun cmd sh.2] in
  let results := json_matches env sh.1 out_dir in
  scenario_body env args s d w
  = if decide (sh.2 = 0%Z)
    then (Ok tt,
          World sh.1
            (ran ++ [EvGetResults out_dir]
             ++ match results with
                | [] => []
                | _ :: _ =>
                    [EvPrint (coloured ("Run command: "
                                        +:+ draw_cmd_of out_dir results))]
                end))
    else (Raise (CalledProcessError sh.2 cmd), World sh.1 ran).
Proof.
  intros kafka_dir hstream_dir out_dir H1 H2 H3 H4 H5 H6 H7 Hsel
    cmd sh ran results.
  unfold scenario_body. fold kafka_dir hstream_dir out_dir.
  rewrite bind_run, H1, bind_run, H2, bind_run, H3, bind_run, H4.
  rewrite bind_run, H5, bind_run, H6, bind_run, H7, Hsel.
  rewrite bind_run. unfold lift at 1. rewrite str_join_paths.
  rewrite bind_run. unfold lift at 1. cbn [fmap list_fmap str_join str_items].
  change (String.concat " " []) with "".
  fold (bench_cmd_of (kafka_drivers ++ hstream_drivers) out_dir ""). fold cmd.
  rewrite bind_run. unfold loginfo at 1, emit at 1.
  rewrite bind_run, subprocess_run_run. cbn [w_fs w_trace]. fold sh.
  fold (coloured ("Run command: " +:+ cmd)).
  destruct (decide (sh.2 = 0%Z)) as [Hz|Hnz].
  - unfold get_results. rewrite bind_run. unfold emit at 1.
    rewrite bind_run, glob_json_run. cbn [w_fs w_trace]. fold results.
    unfold ran. destruct results as [|res results'].
    + unfold mret, M_ret. by rewrite <- !app_assoc.
    + unfold loginfo, emit. cbn [w_fs w_trace].
      fold (draw_cmd_of out_dir (res :: results')).
      fold (coloured ("Run command: " +:+ draw_cmd_of out_dir (res :: results'))).
      by rewrite <- !app_assoc.
  - unfold ran. by rewrite <- !app_assoc.
Qed.

(** X8. Once the directories of the iteration are made and the drivers
    rendered, and when at least one workload is selected: the iteration
    raises [TypeError] at [" ".join(workloads)], in the world the
    rendering left; no command is printed or run. *)
Theorem selected_workloads_raise (env : Env) (args : Args) (s : string)
    (d : path) (w w1 w2 w3 w5 w6 : world) (tmpls workloads : list DirEntry)
    (kafka_drivers hstream_drivers : list path) :
  let kafka_dir := d ++ ["kafka"] in
  let hstream_dir := d ++ ["hstream"] in
  let out_dir := a_result_dir args ++ [s] in
  mkdir_p kafka_dir w = (Ok tt, w1) →
  mkdir_p hstream_dir w1 = (Ok tt, w2) →
  mkdir_p out_dir w2 = (Ok tt, w3) →
  get_driver_tmpls env s w3 = (Ok tmpls, w3) →
  setup_drivers (select_by_name (a_driver args) tmpls) s kafka_dir
    (kafka_driver_overrides args) w3 = (Ok kafka_drivers, w5) →
  setup_drivers (select_by_name (a_driver args) tmpls) s hstream_dir
    (hstream_driver_overrides args) w5 = (Ok hstream_drivers, w6) →
  get_workloads env s w6 = (Ok workloads, w6) →
  select_by_name (a_workload args) workloads ≠ [] →
  scenario_body env args s d w = (Raise TypeError, w6).
Proof.
  intros kafka_dir hstream_dir out_dir H1 H2 H3 H4 H5 H6 H7 Hsel.
  unfold scenario_body. fold kafka_dir hstream_dir out_dir.
  rewrite bind_run, H1, bind_run, H2, bind_run, H3, bind_run, H4.
  rewrite bind_run, H5, bind_run, H6, bind_run, H7.
  rewrite bind_run. unfold lift at 1. rewrite str_join_paths.
  rewrite bind_run. unfold lift at 1.
  destruct (select_by_name (a_workload args) workloads) as [|e es]; [done|].
  by rewrite str_join_entries.
Qed.

(** ** The command line *)

(** X9. When [-s] names a scenario that is not a directory of the
    scenario root, [main] ends with the status 2 before any scenario is
    processed: nothing is printed, written or run, and the file system is
    as it was. *)
Theorem unknown_scenario_rejected (env : Env) (args : Args) (w : world)
    (all_scenarios given : list string) (name : string) :
  get_scenarios env w = (Ok all_scenarios, w) →
  a_scenario args = Some given →
  name ∈ given →
  name ∉ all_scenarios →
  main env args w = (Raise (SystemExit 2), w)
  ∧ exit_status (main env args w).1 = 2%Z.
Proof.
  intros Hs Hg Hin Hnot.
  assert (main env args w = (Raise (SystemExit 2), w)) as Hmain;
    [|by rewrite Hmain].
  unfold main. rewrite bind_run, Hs, bind_run. unfold parse_args.
  rewrite Hg. cbn [default from_option]. unfold id.
  destruct (forallb (λ s, bool_decide (s ∈ all_scenarios)) given) eqn:Hall;
    [|done].
  rewrite forallb_forall in Hall.
  apply list_elem_of_In, Hall, bool_decide_eq_true in Hin. done.
Qed.

(** ** The order of Execute and Collect *)

(** X10. In every iteration, [get_results] is called only after the
    benchmark command ended with the status 0: an iteration that returns
    has written rendered drivers, then printed and run one command that
    ended with 0, then called [get_results] on [result_dir/s], then at
    most printed; an iteration that raises has not called
    [get_results]. *)
Theorem results_only_after_success (env : Env) (args : Args) (s : string)
    (w : world) :
  ∃ tr,
    w_trace (scenario_iteration env args s w).2 = w_trace w ++ tr
    ∧ match (scenario_iteration env args s w).1 with
      | Ok _ =>
          ∃ writes line cmd prints,
            Forall is_write writes
            ∧ Forall is_print prints
            ∧ tr = writes
                   ++ [EvPrint line; EvRun cmd 0;
                       EvGetResults (a_result_dir args ++ [s])] ++ prints
      | Raise _ => Forall (λ ev, ¬ is_get_results ev) tr
      end.
Proof.
  destruct (scenario_iteration env args s w) as [r w'] eqn:E.
  apply scenario_iteration_shape in E as (writes & Hall & Hshape).
  cbn [fst snd].
  assert (Forall (λ ev, ¬ is_get_results ev) writes) as Hng.
  { eapply Forall_impl; [exact Hall|]. intros []; cbn; tauto. }
  destruct Hshape as [(e & -> & Htr)|[(l & c & k & _ & -> & Htr)
                                     |(l & c & ps & -> & Hps & Htr)]];
    eexists; (split; [exact Htr|]).
  - done.
  - apply Forall_app. split; [done|]. repeat constructor; cbn; tauto.
  - by exists writes, l, c, ps.
Qed.

(** ** What a run leaves alone *)

Lemma keeps_ret {A} (q : path) (nd : node) (a : A) : keeps q nd (mret a).
Proof. by intros w r w' [= <- <-]. Qed.

Lemma keeps_raise {A} (q : path) (nd : node) (e : exn) :
  keeps q nd (raise (A:=A) e).
Proof. by intros w r w' [= <- <-]. Qed.

Lemma keeps_lift {A} (q : path) (nd : node) (x : result A) :
  keeps q nd (lift x).
Proof. by intros w r w' [= <- <-]. Qed.

Lemma keeps_get_fs (q : path) (nd : node) : keeps q nd get_fs.
Proof. by intros w r w' [= <- <-]. Qed.

Lemma keeps_emit (q : path) (nd : node) (ev : event) : keeps q nd (emit ev).
Proof. by intros w r w' [= <- <-]. Qed.

Lemma keeps_bind {A B} (q : path) (nd : node) (m : M A) (f : A → M B) :
  keeps q nd m → (∀ a, keeps q nd (f a)) → keeps q nd (m ≫= f).
Proof.
  intros Hm Hf w r w'. rewrite bind_run.
  destruct (m w) as [[a|e] w1] eqn:E; intros H Hq.
  - eapply Hf; [exact H|]. by eapply Hm.
  - injection H as <- <-. by eapply Hm.
Qed.

Lemma keeps_mkdir_p (q : path) (nd : node) (p : path) : keeps q nd (mkdir_p p).
Proof.
  intros w r w' H Hq.
  destruct (mkdir_p_run p w) as [(e & He & _)|[Hok Hclear]];
    rewrite ?He, ?Hok in H; injection H as <- <-; [done|].
  simpl. rewrite lookup_foldr_mkdir. case_decide as Hin; [|done].
  apply Hclear in Hin. unfold is_File in Hin. rewrite Hq in Hin.
  by destruct nd.
Qed.

Lemma keeps_os_scandir (q : path) (nd : node) (dir : path) :
  keeps q nd (os_scandir dir).
Proof. intros w r w' H. by apply os_scandir_world in H as ->. Qed.

Lemma keeps_gen_driver (q : path) (nd : node) (driver_dir : path)
    (overrides : overrides_t) (ts : list DirEntry) :
  ¬ driver_dir `prefix_of` q →
  keeps q nd (gen_driver driver_dir overrides ts).
Proof.
  intros Hq w r w' H Hnd. rewrite <- Hnd.
  eapply gen_driver_frame; [exact H|].
  intros (t & -> & _)%list_elem_of_fmap. apply Hq. by apply prefix_app_r.
Qed.

Lemma keeps_setup_drivers (q : path) (nd : node) (ts : list DirEntry)
    (s : string) (gen_dir : path) (overrides : overrides_t) :
  ¬ gen_dir `prefix_of` q →
  keeps q nd (setup_drivers ts s gen_dir overrides).
Proof.
  intros Hq. unfold setup_drivers. apply keeps_bind; [apply keeps_mkdir_p|].
  intros _. apply keeps_gen_driver. intros Hp. apply Hq.
  etrans; [|exact Hp]. by apply prefix_app_r.
Qed.

Lemma keeps_subprocess_run (q : path) (nd : node) (env : Env) (cmd : string) :
  (∀ cmd fs, fs !! q = Some nd → (env_shell env cmd fs).1 !! q = Some nd) →
  keeps q nd (subprocess_run env cmd).
Proof.
  intros Hsh w r w'. rewrite subprocess_run_run. intros [= <- <-] Hq.
  by apply Hsh.
Qed.

Lemma keeps_get_results (q : path) (nd : node) (env : Env) (dir : path) :
  keeps q nd (get_results env dir).
Proof.
  intros w r w' H Hq. apply get_results_trace in H as (_ & _ & Hfs).
  by rewrite Hfs.
Qed.

Lemma keeps_scenario_body (q : path) (nd : node) (env : Env) (args : Args)
    (s : string) (d : path) :
  ¬ d `prefix_of` q →
  (∀ cmd fs, fs !! q = Some nd → (env_shell env cmd fs).1 !! q = Some nd) →
  keeps q nd (scenario_body env args s d).
Proof.
  intros Hq Hsh. unfold scenario_body.
  assert (∀ x, ¬ d ++ [x] `prefix_of` q) as Hsub.
  { intros x Hp. apply Hq. etrans; [|exact Hp]. by apply prefix_app_r. }
  do 3 (apply keeps_bind; [apply keeps_mkdir_p|intros _]).
  apply keeps_bind.
  { unfold get_driver_tmpls. apply keeps_bind; [apply keeps_os_scandir|].
    intros ?. apply keeps_ret. }
  intros tmpls.
  do 2 (apply keeps_bind; [by apply keeps_setup_drivers|intros ?]).
  apply keeps_bind.
  { unfold get_workloads. apply keeps_bind; [apply keeps_os_scandir|].
    intros ?. apply keeps_ret. }
  intros workloads.
  do 2 (apply keeps_bind; [apply keeps_lift|intros ?]).
  apply keeps_bind; [apply keeps_emit|intros _].
  apply keeps_bind; [by apply keeps_subprocess_run|intros _].
  apply keeps_bind; [apply keeps_get_results|].
  intros [|res results]; [apply keeps_ret|apply keeps_emit].
Qed.

Lemma keeps_for_each {A} (q : path) (nd : node) (xs : list A) (f : A → M unit) :
  (∀ x, keeps q nd (f x)) → keeps q nd (for_each xs f).
Proof.
  intros Hf. induction xs as [|x xs IH]; [apply keeps_ret|].
  cbn [for_each]. apply keeps_bind; [apply Hf|]. by intros _.
Qed.

(** X11. A run of [main] leaves every node outside the directories that
    [tempfile] names as it is, a file with its contents and a directory
    as a directory, as far as the benchmark command does: the program
    itself changes or removes no template, workload or earlier result. *)
Theorem main_keeps_nodes (env : Env) (args : Args) (w : world) (q : path)
    (nd : node) :
  (∀ j, ¬ env_tmp_names env j `prefix_of` q) →
  (∀ cmd fs, fs !! q = Some nd → (env_shell env cmd fs).1 !! q = Some nd) →
  w_fs w !! q = Some nd →
  w_fs (main env args w).2 !! q = Some nd.
Proof.
  intros Htmp Hsh Hq.
  assert (keeps q nd (main env args)) as H;
    [|destruct (main env args w) as [r w'] eqn:E; exact (H _ _ _ E Hq)].
  unfold main. apply keeps_bind.
  { unfold get_scenarios. apply keeps_bind; [apply keeps_os_scandir|].
    intros ?. apply keeps_ret. }
  intros all_scenarios. apply keeps_bind.
  { unfold parse_args. destruct (forallb _ _);
      [apply keeps_ret|apply keeps_raise]. }
  intros _. apply keeps_for_each. intros s w0 r w' Hit Hq0.
  rewrite scenario_iteration_run in Hit.
  destruct (mkdtemp env (w_fs w0)) as [d|e] eqn:Hd.
  - apply mkdtemp_from_name in Hd as [j ->]. cbn zeta in Hit.
    destruct (scenario_body env args s _ _) as [r1 w1] eqn:Hb.
    injection Hit as <- <-. cbn [w_fs].
    rewrite rmtree_lookup_outside by apply Htmp.
    eapply (keeps_scenario_body q nd); [apply Htmp|exact Hsh|exact Hb|].
    cbn [w_fs]. rewrite lookup_insert_ne; [done|].
    intros Heq. apply (Htmp j). by rewrite Heq.
  - by injection Hit as <- <-.
Qed.

Lemma main_keeps_nodes_example :
  (∀ j, ¬ env_tmp_names (ex_env 3) j
          `prefix_of` ["p"; "scenarios"; "s1"; "driver-tmpls"; "kafka.yaml"])
  ∧ ex_fs !! ["p"; "scenarios"; "s1"; "driver-tmpls"; "kafka.yaml"]
    = Some (File "name: __NAME__ at __BOOTSTRAP_SERVERS__")
  ∧ w_fs (main (ex_env 3) ex_args (World ex_fs [])).2
      !! ["p"; "scenarios"; "s1"; "driver-tmpls"; "kafka.yaml"]
    = Some (File "name: __NAME__ at __BOOTSTRAP_SERVERS__").
Proof.
  assert (∀ j, ¬ env_tmp_names (ex_env 3) j
                 `prefix_of` ["p"; "scenarios"; "s1"; "driver-tmpls"; "kafka.yaml"])
    as Htmp by (intros j [k Hk]; done).
  split; [exact Htmp|]. split; [evaluates|].
  apply main_keeps_nodes; [exact Htmp|done|evaluates].
Defined.

Ltac keeps_body_tail env args s :=
  apply keeps_bind;
  [ unfold get_driver_tmpls; apply keeps_bind; [apply keeps_os_scandir|];
    intros ?; apply keeps_ret | intros ? ];
  do 2 (apply keeps_bind; [by apply keeps_setup_drivers|intros ?]);
  apply keeps_bind;
  [ unfold get_workloads; apply keeps_bind; [apply keeps_os_scandir|];
    intros ?; apply keeps_ret | intros ? ];
  do 2 (apply keeps_bind; [apply keeps_lift|intros ?]);
  (apply keeps_bind; [apply keeps_emit|intros _]);
  (apply keeps_bind; [by apply keeps_subprocess_run|intros _]);
  (apply keeps_bind; [apply keeps_get_results|]);
  intros [|? ?]; [apply keeps_ret|apply keeps_emit].

(** X12. Once the directories of the iteration are made, the output
    directory [result_dir/s] is a directory when the iteration is over and
    the temporary directory removed, however the iteration ends, as far
    as the benchmark command leaves it alone: a scenario that fails
    leaves its output directory behind. *)
Theorem output_directory_left (env : Env) (args : Args) (s : string)
    (d : path) (w w1 w2 w3 : world) :
  let out_dir := a_result_dir args ++ [s] in
  mkdir_p (d ++ ["kafka"]) w = (Ok tt, w1) →
  mkdir_p (d ++ ["hstream"]) w1 = (Ok tt, w2) →
  mkdir_p out_dir w2 = (Ok tt, w3) →
  ¬ d `prefix_of` out_dir →
  (∀ cmd fs, fs !! out_dir = Some Dir →
             (env_shell env cmd fs).1 !! out_dir = Some Dir) →
  rmtree d (w_fs (scenario_body env args s d w).2) !! out_dir = Some Dir.
Proof.
  intros out_dir H1 H2 H3 Hd Hsh.
  rewrite rmtree_lookup_outside by done.
  assert (w_fs w3 !! out_dir = Some Dir) as Hout.
  { destruct (mkdir_p_run out_dir w2) as [(e & He & _)|[Hok _]];
      rewrite ?He, ?Hok in H3; [done|]. injection H3 as <-. simpl.
    rewrite lookup_foldr_mkdir. rewrite decide_True; [done|].
    apply elem_of_app. right. by apply list_elem_of_singleton. }
  assert (∀ x, ¬ d ++ [x] `prefix_of` out_dir) as Hsub.
  { intros x Hp. apply Hd. etrans; [|exact Hp]. by apply prefix_app_r. }
  unfold scenario_body. fold out_dir.
  rewrite bind_run, H1, bind_run, H2, bind_run, H3.
  match goal with
  | |- w_fs (?m w3).2 !! _ = _ =>
      assert (keeps out_dir Dir m) as Hk;
      [|destruct (m w3) as [r w'] eqn:E; exact (Hk _ _ _ E Hout)]
  end.
  keeps_body_tail env args s.
Qed.

(** The scenario [s1] without its [driver-tmpls] directory fails, and
    [results/s1] is there afterwards. *)
Lemma output_directory_left_example :
  ¬ ["tmp"; "d"] `prefix_of` ["results"; "s1"]
  ∧ rmtree ["tmp"; "d"]
      (w_fs (scenario_body (ex_env 0) ex_args_s1 "s1" ["tmp"; "d"]
               (World (<[ ["tmp"; "d"] := Dir ]> ex_fs_no_tmpls) [])).2)
      !! ["results"; "s1"] = Some Dir
  ∧ ex_fs_no_tmpls !! ["results"; "s1"] = None.
Proof.
  assert (¬ ["tmp"; "d"] `prefix_of` ["results"; "s1"]) as Hd
    by (intros [k Hk]; done).
  split; [exact Hd|]. split; [|evaluates].
  set (w := World (<[ ["tmp"; "d"] := Dir ]> ex_fs_no_tmpls) []).
  set (w1 := (mkdir_p ["tmp"; "d"; "kafka"] w).2).
  set (w2 := (mkdir_p ["tmp"; "d"; "hstream"] w1).2).
  set (w3 := (mkdir_p ["results"; "s1"] w2).2).
  refine (output_directory_left (ex_env 0) ex_args_s1 "s1" ["tmp"; "d"]
            w w1 w2 w3 _ _ _ Hd _); try evaluates.
  done.
Defined.

(** The scenario [s2], which has no workload, with a command that ends
    with 0: the drivers are written, the command is printed and run, and
    the results are looked for. *)
Lemma execute_and_collect_example :
  scenario_body (ex_env 0) ex_args "s2" ["tmp"; "d"]
    (World (<[ ["tmp"; "d"] := Dir ]> ex_fs) [])
  = (Ok tt,
     World
       (foldr (λ q, <[q := Dir]>)
          (<[ ["tmp"; "d"; "hstream"; "s2"; "drivers"; "kafka.yaml"]
              := File "hstream-kafka" ]>
             (<[ ["tmp"; "d"; "kafka"; "s2"; "drivers"; "kafka.yaml"]
                 := File "kafka" ]> (<[ ["tmp"; "d"] := Dir ]> ex_fs)))
          [["tmp"; "d"; "kafka"]; ["tmp"; "d"; "kafka"; "s2"];
           ["tmp"; "d"; "kafka"; "s2"; "drivers"];
           ["tmp"; "d"; "hstream"]; ["tmp"; "d"; "hstream"; "s2"];
           ["tmp"; "d"; "hstream"; "s2"; "drivers"];
           ["results"]; ["results"; "s2"]])
       [EvWrite ["tmp"; "d"; "kafka"; "s2"; "drivers"; "kafka.yaml"] "kafka";
        EvWrite ["tmp"; "d"; "hstream"; "s2"; "drivers"; "kafka.yaml"]
          "hstream-kafka";
        EvPrint (coloured ("Run command: " +:+ ex_cmd_s2));
        EvRun ex_cmd_s2 0;
        EvGetResults ["results"; "s2"]]).
Proof.
  set (w := World (<[ ["tmp"; "d"] := Dir ]> ex_fs) []).
  set (w1 := (mkdir_p ["tmp"; "d"; "kafka"] w).2).
  set (w2 := (mkdir_p ["tmp"; "d"; "hstream"] w1).2).
  set (w3 := (mkdir_p ["results"; "s2"] w2).2).
  set (tmpls := files_in (w_fs w3) ["p"; "scenarios"; "s2"; "driver-tmpls"]).
  set (w5 := (setup_drivers tmpls "s2" ["tmp"; "d"; "kafka"]
                (kafka_driver_overrides ex_args) w3).2).
  set (w6 := (setup_drivers tmpls "s2" ["tmp"; "d"; "hstream"]
                (hstream_driver_overrides ex_args) w5).2).
  refine (eq_trans
            (execute_and_collect (ex_env 0) ex_args "s2" ["tmp"; "d"]
               w w1 w2 w3 w5 w6 tmpls []
               [["tmp"; "d"; "kafka"; "s2"; "drivers"; "kafka.yaml"]]
               [["tmp"; "d"; "hstream"; "s2"; "drivers"; "kafka.yaml"]]
               _ _ _ _ _ _ _ _) _); evaluates.
Defined.

(** The scenario [s1] with its one workload: [TypeError], in the world
    the rendering left. *)
Lemma selected_workloads_raise_example :
  (scenario_body (ex_env 0) ex_args_s1 "s1" ["tmp"; "d"]
     (World (<[ ["tmp"; "d"] := Dir ]> ex_fs_workload) [])).1
  = Raise TypeError
  ∧ written
      (w_trace (scenario_body (ex_env 0) ex_args_s1 "s1" ["tmp"; "d"]
                  (World (<[ ["tmp"; "d"] := Dir ]> ex_fs_workload) [])).2)
    = [["tmp"; "d"; "kafka"; "s1"; "drivers"; "acks.yaml"];
       ["tmp"; "d"; "kafka"; "s1"; "drivers"; "kafka.yaml"];
       ["tmp"; "d"; "hstream"; "s1"; "drivers"; "acks.yaml"];
       ["tmp"; "d"; "hstream"; "s1"; "drivers"; "kafka.yaml"]].
Proof.
  set (w := World (<[ ["tmp"; "d"] := Dir ]> ex_fs_workload) []).
  set (w1 := (mkdir_p ["tmp"; "d"; "kafka"] w).2).
  set (w2 := (mkdir_p ["tmp"; "d"; "hstream"] w1).2).
  set (w3 := (mkdir_p ["results"; "s1"] w2).2).
  set (tmpls := files_in (w_fs w3) ["p"; "scenarios"; "s1"; "driver-tmpls"]).
  set (w5 := (setup_drivers tmpls "s1" ["tmp"; "d"; "kafka"]
                (kafka_driver_overrides ex_args_s1) w3).2).
  set (w6 := (setup_drivers tmpls "s1" ["tmp"; "d"; "hstream"]
                (hstream_driver_overrides ex_args_s1) w5).2).
  assert (scenario_body (ex_env 0) ex_args_s1 "s1" ["tmp"; "d"] w
          = (Raise TypeError, w6)) as H.
  { refine (selected_workloads_raise (ex_env 0) ex_args_s1 "s1" ["tmp"; "d"]
              w w1 w2 w3 w5 w6 tmpls
              (files_in (w_fs w6) ["p"; "scenarios"; "s1"; "workloads"])
              [["tmp"; "d"; "kafka"; "s1"; "drivers"; "acks.yaml"];
               ["tmp"; "d"; "kafka"; "s1"; "drivers"; "kafka.yaml"]]
              [["tmp"; "d"; "hstream"; "s1"; "drivers"; "acks.yaml"];
               ["tmp"; "d"; "hstream"; "s1"; "drivers"; "kafka.yaml"]]
              _ _ _ _ _ _ _ _); try evaluates.
    by vm_compute. }
  split.
  - exact (f_equal fst H).
  - etrans; [exact (f_equal (λ x, written (w_trace x.2)) H)|evaluates].
Defined.

(** [-s s1 nope] where [nope] is no scenario. *)
Lemma unknown_scenario_example :
  main (ex_env 0)
    {| a_kafka := "k"; a_hstream := "h"; a_scenario := Some ["s1"; "nope"];
       a_driver := None; a_workload := None; a_result_dir := ["results"] |}
    (World ex_fs [])
  = (Raise (SystemExit 2), World ex_fs [])
  ∧ exit_status
      (main (ex_env 0)
         {| a_kafka := "k"; a_hstream := "h";
            a_scenario := Some ["s1"; "nope"];
            a_driver := None; a_workload := None;
            a_result_dir := ["results"] |}
         (World ex_fs [])).1 = 2%Z.
Proof.
  apply (unknown_scenario_rejected (ex_env 0) _ (World ex_fs [])
           ["s2"; "s1"] ["s1"; "nope"] "nope").
  - evaluates.
  - reflexivity.
  - by right; left.
  - intros Hin. apply list_elem_of_In in Hin. vm_compute in Hin.
    intuition discriminate.
Defined.
